(** * Black_Hole_1D: chunk-reversal preprocessing in front of an entropy coder

    A shallow embedding of [Black_Hole_94.py] (the transform, the container
    built by [compress_data], its parsing in [decompress_data] and the search
    loop [find_best_iteration]) and of the padding variant of
    [Black_Hole_65.py] ([reverse_chunks_in_memory], [find_best_chunk_strategy]).

    Python values are modelled as follows: [bytes] is a list of [Byte.byte];
    integers are [Z]; an exception is the [Raise] branch of [result]; the
    external [paq] module and the [random] module are parameters. *)

From Stdlib Require Import ZArith QArith Lia Strings.Byte Sorting.Sorted.
From stdpp Require Import base tactics option list numbers.
From stdpp Require strings gmap.

Local Open Scope Z_scope.

(** ** Python runtime *)

Module Py.

Inductive exn : Type :=
| ValueError
| StructError
| ZeroDivisionError
| IndexError
| NameError
| PaqError.

Inductive result (A : Type) : Type :=
| Ok (a : A)
| Raise (e : exn).
Arguments Ok {A} a.
Arguments Raise {A} e.

(** Sequencing: an exception raised by [m] skips the rest. *)
Definition bind {A B} (m : result A) (k : A → result B) : result B :=
  match m with
  | Ok a => k a
  | Raise e => Raise e
  end.

Definition bytes : Type := list byte.

(** [len(x)] as a Python int. *)
Definition len {A} (l : list A) : Z := Z.of_nat (length l).

(** The value of a byte, and the byte of a value in [range(256)] (other
    values are reduced modulo 256; the code only stores values in range). *)
Definition byte_to_Z (b : byte) : Z := Z.of_N (Byte.to_N b).

Definition byte_of_Z (z : Z) : byte :=
  default x00 (Byte.of_N (Z.to_N (z mod 256))).

(** [a ^ k] on two byte values. *)
Definition byte_xor (a : byte) (k : Z) : byte :=
  byte_of_Z (Z.lxor (byte_to_Z a) k).

(** [data[i:j]] for [0 <= i <= j]. *)
Definition slice {A} (data : list A) (i j : nat) : list A :=
  take (j - i) (drop i data).

(** Number of elements of [range(0, stop, step)] for [step > 0]. *)
Definition range_len (stop step : nat) : nat := ((stop + step - 1) / step)%nat.

(** [range(0, stop, step)] for [stop >= 0]: zero step raises, a negative
    step gives the empty range. *)
Definition range_step (stop : nat) (step : Z) : result (list nat) :=
  if decide (step = 0) then Raise ValueError
  else if decide (step < 0) then Ok []
  else Ok ((λ k, k * Z.to_nat step)%nat <$> seq 0 (range_len stop (Z.to_nat step))).

(** [a // b] on Python ints. *)
Definition floordiv (a b : Z) : result Z :=
  if decide (b = 0) then Raise ZeroDivisionError else Ok (a / b).

(** [a / b] on Python ints, kept as the exact quotient. Python rounds it to
    a double: Black_Hole_94 only reports the ratio, Black_Hole_65 compares
    two such quotients that have the same positive denominator. *)
Definition truediv (a b : Z) : result Q :=
  if decide (b = 0) then Raise ZeroDivisionError
  else Ok (Qmake (a * Z.sgn b) (Z.to_pos (Z.abs b))).

(** *** [struct] with big-endian unsigned formats *)

(** The [w] low bytes of [v], most significant first. *)
Fixpoint be_bytes (w : nat) (v : Z) : bytes :=
  match w with
  | O => []
  | S w' => byte_of_Z (Z.land (Z.shiftr v (8 * Z.of_nat w')) 255) :: be_bytes w' v
  end.

Definition be_value (bs : bytes) : Z :=
  foldl (λ acc b, acc * 256 + byte_to_Z b) 0 bs.

(** [struct.pack(">X", v)] for an unsigned format of [w] bytes. *)
Definition pack_uint (w : nat) (v : Z) : result bytes :=
  if decide (0 <= v < 2 ^ (8 * Z.of_nat w)) then Ok (be_bytes w v)
  else Raise StructError.

(** [struct.pack(f">{n}X", *vs)] with [n = len(vs)]. *)
Fixpoint pack_array (w : nat) (vs : list Z) : result bytes :=
  match vs with
  | [] => Ok []
  | v :: vs' =>
      bind (pack_uint w v) (λ b,
      bind (pack_array w vs') (λ bs,
      Ok (b ++ bs)))
  end.

Fixpoint split_fields (w n : nat) (bs : bytes) : list Z :=
  match n with
  | O => []
  | S n' => be_value (take w bs) :: split_fields w n' (drop w bs)
  end.

(** [struct.unpack(f">{n}X", bs)]: the buffer must have exactly [n * w]
    bytes. *)
Definition unpack_array (w n : nat) (bs : bytes) : result (list Z) :=
  if decide (length bs = (n * w)%nat) then Ok (split_fields w n bs)
  else Raise StructError.

End Py.
Import Py.

Notation "x <- m ;; k" := (bind m (λ x, k))
  (at level 100, m at next level, right associativity,
   format "'[v' x  <-  m  ;;  '/' k ']'").

(** ** Black_Hole_94.py *)

Module BH94.

Definition MAX_POSITIONS : Z := 64.

(** [[data[i:i + chunk_size] for i in range(0, len(data), chunk_size)]] *)
Definition chunked (data : bytes) (chunk_size : Z) : result (list bytes) :=
  offsets <- range_step (length data) chunk_size ;;
  Ok ((λ i, slice data i (i + Z.to_nat chunk_size)) <$> offsets).

(** One round of the [for pos in positions] loop. *)
Definition reverse_at (chunked_data : list bytes) (pos : Z) : list bytes :=
  if decide (0 <= pos < len chunked_data)
  then alter reverse (Z.to_nat pos) chunked_data
  else chunked_data.

Definition reverse_chunks (data : bytes) (chunk_size : Z) (positions : list Z)
  : result bytes :=
  chunked_data <- chunked data chunk_size ;;
  Ok (concat (foldl reverse_at chunked_data positions)).

Definition apply_calculus (data : bytes) (calculus_value : Z) : bytes :=
  (λ b, byte_xor b (Z.land calculus_value 255)) <$> data.

(** The argument of [paq.compress] in [compress_data]:
    [metadata + packed_positions + data]. *)
Definition container (data : bytes) (chunk_size : Z) (positions : list Z)
    (original_size calculus_value : Z) : result bytes :=
  f1 <- pack_uint 4 original_size ;;
  f2 <- pack_uint 4 chunk_size ;;
  f3 <- pack_uint 4 calculus_value ;;
  let metadata := f1 ++ f2 ++ f3 in
  let num_positions := len positions in
  if decide (num_positions > 65535) then Raise ValueError
  else
    f4 <- pack_uint 2 num_positions ;;
    let metadata := metadata ++ f4 in
    packed_positions <- pack_array 4 positions ;;
    Ok ((metadata ++ packed_positions) ++ data).

(** What [decompress_data] reads from the decompressed bytes before it
    undoes the transform. *)
Record header : Type := Header {
  original_size : Z;
  chunk_size : Z;
  calculus_value : Z;
  positions : list Z;
  payload : bytes
}.

Definition parse_container (decompressed_data : bytes) : result header :=
  f <- unpack_array 4 3 (slice decompressed_data 0 12) ;;
  match f with
  | [original_size; chunk_size; calculus_value] =>
      n <- unpack_array 2 1 (slice decompressed_data 12 14) ;;
      match n with
      | [num_positions] =>
          let positions_start := 14%nat in
          let positions_end := (positions_start + Z.to_nat num_positions * 4)%nat in
          positions <- unpack_array 4 (Z.to_nat num_positions)
                         (slice decompressed_data positions_start positions_end) ;;
          let data_start := positions_end in
          Ok (Header original_size chunk_size calculus_value positions
                (drop data_start decompressed_data))
      | _ => Raise StructError
      end
  | _ => Raise StructError
  end.

(** A sampled candidate: the outcome of the [random] calls of one
    iteration ([calculus_value] and the sorted sample [positions]). *)
Record draw : Type := Draw {
  draw_calculus_value : Z;
  draw_positions : list Z
}.

(** What [random] guarantees about a draw for an input of [n] bytes:
    [calculus_value] is in [[1, 2**x - 1]] for some [x <= 17], and
    [positions] is a sorted sample without repetition of
    [range(n // chunk_size)], of at most [MAX_POSITIONS] elements. *)
Definition valid_draw (n chunk_size : Z) (d : draw) : Prop :=
  1 <= draw_calculus_value d <= 2 ^ 17 - 1 ∧
  StronglySorted Z.lt (draw_positions d) ∧
  NoDup (draw_positions d) ∧
  Forall (λ p, 0 <= p < n / chunk_size) (draw_positions d) ∧
  len (draw_positions d) <= Z.min (n / chunk_size) MAX_POSITIONS.

(** The best-so-far variables of [find_best_iteration]. *)
Record best : Type := Best {
  best_size : Z;
  best_data : bytes;
  best_ratio : Q
}.

Section Coder.

(** [paq.compress] and [paq.decompress]. *)
Variable paq_compress : bytes → result bytes.
Variable paq_decompress : bytes → result bytes.

Definition compress_data (data : bytes) (chunk_size : Z) (positions : list Z)
    (original_size calculus_value : Z) : result bytes :=
  c <- container data chunk_size positions original_size calculus_value ;;
  paq_compress c.

Definition decompress_body (compressed_data : bytes) : result bytes :=
  decompressed_data <- paq_decompress compressed_data ;;
  h <- parse_container decompressed_data ;;
  restored <- reverse_chunks (payload h) (chunk_size h) (positions h) ;;
  let restored := apply_calculus restored (calculus_value h) in
  Ok (take (Z.to_nat (original_size h)) restored).

(** The [except] clause names [zlib.error], and [zlib] is not imported:
    matching any exception against it raises [NameError]. *)
Definition decompress_data (compressed_data : bytes) : result bytes :=
  match decompress_body compressed_data with
  | Ok restored => Ok restored
  | Raise _ => Raise NameError
  end.

(** Lines 61-63: the compressed candidate of a draw. *)
Definition candidate (input_data : bytes) (chunk_size : Z) (d : draw)
  : result bytes :=
  let transformed := apply_calculus input_data (draw_calculus_value d) in
  reversed_data <- reverse_chunks transformed chunk_size (draw_positions d) ;;
  compress_data reversed_data chunk_size (draw_positions d)
    (len input_data) (draw_calculus_value d).

(** One turn of the [for] loop. *)
Definition iteration (input_data : bytes) (chunk_size : Z) (st : best)
    (d : draw) : result best :=
  m <- floordiv (len input_data) chunk_size ;;
  if decide (Z.min m MAX_POSITIONS < 0) then Raise ValueError
  else
    compressed <- candidate input_data chunk_size d ;;
    let comp_size := len compressed in
    if decide (comp_size < best_size st) then
      ratio <- truediv comp_size (len input_data) ;;
      Ok (Best comp_size compressed ratio)
    else Ok st.

Fixpoint search_loop (input_data : bytes) (chunk_size : Z)
    (draws : list draw) (st : best) : result best :=
  match draws with
  | [] => Ok st
  | d :: draws' =>
      st' <- iteration input_data chunk_size st d ;;
      search_loop input_data chunk_size draws' st'
  end.

(** The best-so-far records the loop goes through, the initial one
    first, up to its end or to the turn that raises. *)
Fixpoint search_trace (input_data : bytes) (chunk_size : Z)
    (draws : list draw) (st : best) : list best :=
  st ::
  match draws with
  | [] => []
  | d :: draws' =>
      match iteration input_data chunk_size st d with
      | Ok st' => search_trace input_data chunk_size draws' st'
      | Raise _ => []
      end
  end.

(** Lines 50-53. *)
Definition baseline (input_data : bytes) (chunk_size : Z) : result best :=
  best_result <- compress_data input_data chunk_size [] (len input_data) 0 ;;
  let best_size := len best_result in
  best_ratio <- truediv best_size (len input_data) ;;
  Ok (Best best_size best_result best_ratio).

(** [rng i] is the draw of iteration [i] of [range(1, max_iterations + 1)]. *)
Definition find_best_iteration (rng : nat → draw) (input_data : bytes)
    (max_iterations chunk_size : Z) : result (bytes * Q) :=
  st0 <- baseline input_data chunk_size ;;
  st <- search_loop input_data chunk_size
          (rng <$> seq 1 (Z.to_nat max_iterations)) st0 ;;
  Ok (best_data st, best_ratio st).

End Coder.

End BH94.

(** ** Black_Hole_65.py *)

Module BH65.

(** [chunked_data[-1]] *)
Definition last_chunk (chunked_data : list bytes) : result bytes :=
  match list.last chunked_data with
  | Some c => Ok c
  | None => Raise IndexError
  end.

(** Lines 10-16, inside the [try]; the list comprehension and the loop over
    the positions are those of Black_Hole_94. *)
Definition reverse_chunks_body (data : bytes) (chunk_size : Z)
    (positions : list Z) : result bytes :=
  chunked_data <- BH94.chunked data chunk_size ;;
  final <- last_chunk chunked_data ;;
  let chunked_data :=
    if decide (len final < chunk_size)
    then alter (λ c, c ++ replicate (Z.to_nat (chunk_size - len c)) x00)
           (length chunked_data - 1)%nat chunked_data
    else chunked_data in
  Ok (concat (foldl BH94.reverse_at chunked_data positions)).

(** Any exception is printed and turned into [None]. *)
Definition reverse_chunks_in_memory (data : bytes) (chunk_size : Z)
    (positions : list Z) : option bytes :=
  match reverse_chunks_body data chunk_size positions with
  | Ok r => Some r
  | Raise _ => None
  end.

(** The bytes handed to [paq.compress] by [compress_with_paq]. *)
Definition container (data : bytes) (positions : list Z) (original_size : Z)
  : result bytes :=
  let chunk_size := 1 in
  f1 <- pack_uint 8 original_size ;;
  f2 <- pack_uint 4 chunk_size ;;
  f3 <- pack_uint 4 (len positions) ;;
  f4 <- pack_array 4 positions ;;
  Ok ((((f1 ++ f2) ++ f3) ++ f4) ++ data).

(** The search variables of [find_best_chunk_strategy] together with the
    content of the file at [compressed_filename] ([None]: not written
    yet). [best_compression_ratio = None] stands for [float('inf')]. *)
Record state : Type := State {
  best_positions : list Z;
  best_compression_ratio : option Q;
  compressed_file : option bytes
}.

Section Coder.

Variable paq_compress : bytes → result bytes.

(** Returns the new file content when it succeeds ([True]) and [None]
    when an exception was caught ([False]). *)
Definition compress_with_paq (data : bytes) (positions : list Z)
    (original_size : Z) : option bytes :=
  match (c <- container data positions original_size ;; paq_compress c) with
  | Ok compressed_data => Some compressed_data
  | Raise _ => None
  end.

Definition ratio_improves (ratio : Q) (best : option Q) : bool :=
  match best with
  | None => true
  | Some b => if Qlt_le_dec ratio b then true else false
  end.

(** One turn of the [while] loop; [positions] is the sorted sample. *)
Definition iteration (original_data : bytes) (st : state)
    (positions : list Z) : state :=
  let file_size := len original_data in
  let chunk_size := 1 in
  let max_positions := file_size / chunk_size in
  if decide (max_positions > 0) then
    match reverse_chunks_in_memory original_data chunk_size positions with
    | Some ((_ :: _) as reversed_data) =>
        match compress_with_paq reversed_data positions file_size with
        | Some written =>
            let compressed_size := len written in
            match truediv compressed_size file_size with
            | Ok compression_ratio =>
                if ratio_improves compression_ratio (best_compression_ratio st)
                then State positions (Some compression_ratio) (Some written)
                else State (best_positions st) (best_compression_ratio st)
                       (Some written)
            | Raise _ => st (* not reached: [file_size > 0] *)
            end
        | None => st
        end
    | _ => st
    end
  else st.

(** The loop, one sample per turn the clock allows. *)
Definition search_loop (original_data : bytes) (samples : list (list Z))
    (st : state) : state :=
  foldl (iteration original_data) st samples.

End Coder.

End BH65.

(** ** Auxiliary definitions used by the statements and proofs *)

(** The chunk list for a positive chunk size [k]. *)
Definition chunks (k : nat) (d : bytes) : list bytes :=
  (λ i, slice d i (i + k)) <$>
    ((λ j, j * k)%nat <$> seq 0 (range_len (length d) k)).

(** Every chunk is full, except that the final one may be shorter (but not
    empty). *)
Fixpoint well_chunked (k : nat) (L : list bytes) : Prop :=
  match L with
  | [] => True
  | x :: L' =>
      match L' with
      | [] => (0 < length x ≤ k)%nat
      | _ :: _ => length x = k ∧ well_chunked k L'
      end
  end.

(** The concatenated big-endian fields of a list of values. *)
Definition flat (w : nat) (vs : list Z) : bytes := concat (be_bytes w <$> vs).

(** A value fits an unsigned field of [w] bytes. *)
Definition fits (w : nat) (v : Z) : Prop := 0 <= v < 2 ^ (8 * Z.of_nat w).

(** The bytes of a container, field after field. *)
Definition layout (data : bytes) (chunk_size : Z) (positions : list Z)
    (original_size calculus_value : Z) : bytes :=
  flat 4 [original_size; chunk_size; calculus_value]
  ++ flat 2 [len positions] ++ flat 4 positions ++ data.

(** Line 12: the final chunk is filled with zero bytes. *)
Definition pad (chunk_size : Z) (c : bytes) : bytes :=
  c ++ replicate (Z.to_nat (chunk_size - len c)) x00.

Definition padded (chunk_size : Z) (L : list bytes) (final : bytes) : list bytes :=
  if decide (len final < chunk_size)
  then alter (pad chunk_size) (length L - 1)%nat L
  else L.

(** The layout as the specification words it: a two-byte magic, then
    [originalSize] on 8 bytes, [chunkSize] on 4, the position count on 2,
    the positions on 4 bytes each, then the payload. *)
Definition claimed_layout (magic data : bytes) (chunk_size : Z)
    (positions : list Z) (original_size : Z) : bytes :=
  magic ++ be_bytes 8 original_size ++ be_bytes 4 chunk_size
  ++ be_bytes 2 (len positions) ++ flat 4 positions ++ data.

(** Number of chunks [reverse_chunks] works on ([0] when the chunking
    raises). *)
Definition num_chunks (data : bytes) (chunk_size : Z) : Z :=
  match BH94.chunked data chunk_size with
  | Ok chunked_data => len chunked_data
  | Raise _ => 0
  end.

(** Two coders to run the definitions with: one that stores its input
    unchanged, and one that fails unless byte 11 of its input is zero. In a
    container of Black_Hole_94 that byte is the low byte of
    [calculus_value]; in one of Black_Hole_65 it is the low byte of
    [chunk_size], which is always 1. *)
Definition store_coder (b : bytes) : result bytes := Ok b.

Definition picky_coder (b : bytes) : result bytes :=
  match b !! 11%nat with
  | Some x00 => Ok b
  | _ => Raise PaqError
  end.

(** ** Further definitions *)

(** The header that [parse_container] reads from a buffer that is long
    enough. *)
Definition header_of (dd : bytes) : BH94.header :=
  let n := Z.to_nat (be_value (slice dd 12 14)) in
  BH94.Header (be_value (slice dd 0 4)) (be_value (slice dd 4 8))
    (be_value (slice dd 8 12))
    (split_fields 4 n (slice dd 14 (14 + n * 4)))
    (drop (14 + n * 4) dd).

(** *** Black_Hole_94.py: [process_large_file] and the chunk size of [main] *)

Module BH94IO.

Import stdpp.strings stdpp.gmap.
Local Open Scope Z_scope.

(** Lines 115-117 of [main]: the answer [n] is accepted when
    [1 <= n <= 5] and gives the chunk size [2**(2**n)]; any other integer
    makes the prompt come again ([None]). *)
Definition chunk_size_choice (n : Z) : option Z :=
  if decide (1 <= n <= 5) then Some (2 ^ (2 ^ n)) else None.

(** How a call of [process_large_file] ends: it returns, with the files as
    it leaves them; it raises [FileNotFoundError]; or an exception of
    [find_best_iteration] goes through. *)
Inductive outcome : Type :=
| Returns (files : gmap string bytes)
| FileNotFound
| Raises (e : exn).

Section Coder.

Variable paq_compress : bytes → result bytes.
Variable paq_decompress : bytes → result bytes.

(** [files] maps the names of the existing files to their content; writing
    a file creates or replaces it. [fixed_chunk_size = None] is the default
    of the parameter, which [struct.pack] refuses. The parameter [attempts]
    is not used by the function. *)
Definition process_large_file (rng : nat → BH94.draw)
    (files : gmap string bytes) (input_filename output_filename mode : string)
    (iterations : Z) (fixed_chunk_size : option Z) : outcome :=
  match files !! input_filename with
  | None => FileNotFound
  | Some file_data =>
      if decide (mode = "compress"%string) then
        match fixed_chunk_size with
        | None => Raises StructError
        | Some chunk_size =>
            match BH94.find_best_iteration paq_compress rng file_data
                    iterations chunk_size with
            | Ok (best_compressed_data, best_ratio) =>
                match best_compressed_data with
                | [] => Returns files
                | _ :: _ =>
                    Returns (<[output_filename := best_compressed_data]> files)
                end
            | Raise e => Raises e
            end
        end
      else if decide (mode = "decompress"%string) then
        match BH94.decompress_data paq_decompress file_data with
        | Ok restored_data =>
            Returns (<[output_filename := restored_data]> files)
        | Raise _ => Returns files
        end
      else Returns files
  end.

End Coder.

End BH94IO.

(** *** Black_Hole_65.py: the decoding of [decompress_and_restore_paq] *)

Module BH65Restore.

(** Lines 48-58, from the decompressed bytes to [restored_data]. *)
Definition restore (decompressed_data : bytes) : result bytes :=
  f1 <- unpack_array 8 1 (slice decompressed_data 0 8) ;;
  f2 <- unpack_array 4 1 (slice decompressed_data 8 12) ;;
  f3 <- unpack_array 4 1 (slice decompressed_data 12 16) ;;
  match f1, f2, f3 with
  | [original_size], [chunk_size], [num_positions] =>
      let n := Z.to_nat num_positions in
      positions <- unpack_array 4 n (slice decompressed_data 16 (16 + n * 4)) ;;
      let chunked_data := drop (16 + n * 4) decompressed_data in
      total_chunks <- floordiv (len chunked_data) chunk_size ;;
      let chunked_data :=
        (λ i, slice chunked_data (i * Z.to_nat chunk_size)
                ((i + 1) * Z.to_nat chunk_size))
          <$> seq 0 (Z.to_nat total_chunks) in
      let chunked_data := foldl BH94.reverse_at chunked_data positions in
      Ok (take (Z.to_nat original_size) (concat chunked_data))
  | _, _, _ => Raise StructError
  end.

Section Coder.

Variable paq_decompress : bytes → result bytes.

(** The content written to the restored file when the function returns
    [True]; [None] when an exception is caught and it returns [False]. The
    checks on the file name and the file accesses are left out. *)
Definition decompress_and_restore (compressed_data : bytes) : option bytes :=
  match (dd <- paq_decompress compressed_data ;; restore dd) with
  | Ok restored_data => Some restored_data
  | Raise _ => None
  end.

End Coder.

End BH65Restore.

(** *** Black_Hole_89.py *)

Module BH89.

(** [reverse_chunks] and [apply_calculus] are, word for word, those of
    Black_Hole_94. The position count takes one byte here. *)
Definition container (data : bytes) (chunk_size : Z) (positions : list Z)
    (original_size calculus_value : Z) : result bytes :=
  f1 <- pack_uint 4 original_size ;;
  f2 <- pack_uint 4 chunk_size ;;
  f3 <- pack_uint 4 calculus_value ;;
  f4 <- pack_uint 1 (len positions) ;;
  f5 <- pack_array 4 positions ;;
  let metadata := ((f1 ++ f2 ++ f3) ++ f4) ++ f5 in
  Ok (metadata ++ data).

(** Lines 34-41, the body of the [try] after [paq.decompress]. *)
Definition restore (decompressed_data : bytes) : result bytes :=
  f <- unpack_array 4 3 (slice decompressed_data 0 12) ;;
  match f with
  | [original_size; chunk_size; calculus_value] =>
      n <- unpack_array 1 1 (slice decompressed_data 12 13) ;;
      match n with
      | [num_positions] =>
          let k := Z.to_nat num_positions in
          positions <- unpack_array 4 k
                         (slice decompressed_data 13 (13 + k * 4)) ;;
          restored_data <- BH94.reverse_chunks
                             (drop (13 + k * 4) decompressed_data)
                             chunk_size positions ;;
          let restored_data := BH94.apply_calculus restored_data calculus_value in
          Ok (take (Z.to_nat original_size) restored_data)
      | _ => Raise StructError
      end
  | _ => Raise StructError
  end.

(** The outcome of the [random] calls of one iteration. *)
Record draw : Type := Draw {
  draw_chunk_size : Z;
  draw_calculus_value : Z;
  draw_positions : list Z
}.

Definition valid_draw (n : Z) (d : draw) : Prop :=
  2 ^ 7 <= draw_chunk_size d <= 2 ^ 17 - 1 ∧
  1 <= draw_calculus_value d <= 2 ^ 17 - 1 ∧
  StronglySorted Z.lt (draw_positions d) ∧
  NoDup (draw_positions d) ∧
  Forall (λ p, 0 <= p < n / draw_chunk_size d) (draw_positions d) ∧
  len (draw_positions d) <= Z.min (n / draw_chunk_size d) 64.

Section Search.

Variable paq_compress : bytes → result bytes.

(** Python's floats, as far as [find_best_iteration] uses them: the quotient
    of two ints, the comparison, and [float('inf')]. *)
Variable float : Type.
Variable float_div : Z → Z → float.
Variable float_lt : float → float → bool.
Variable inf : float.

Definition compress_data (data : bytes) (chunk_size : Z) (positions : list Z)
    (original_size calculus_value : Z) : result bytes :=
  c <- container data chunk_size positions original_size calculus_value ;;
  paq_compress c.

Definition truediv (a b : Z) : result float :=
  if decide (b = 0) then Raise ZeroDivisionError else Ok (float_div a b).

(** One turn of the loop on the pair
    [(best_compression_ratio, best_compressed_data)]. *)
Definition iteration (input_data : bytes) (st : float * option bytes)
    (d : draw) : result (float * option bytes) :=
  m <- floordiv (len input_data) (draw_chunk_size d) ;;
  if decide (Z.min m 64 < 0) then Raise ValueError
  else
    let transformed_data := BH94.apply_calculus input_data (draw_calculus_value d) in
    reversed_data <- BH94.reverse_chunks transformed_data (draw_chunk_size d)
                       (draw_positions d) ;;
    compressed_data <- compress_data reversed_data (draw_chunk_size d)
                         (draw_positions d) (len input_data)
                         (draw_calculus_value d) ;;
    compression_ratio <- truediv (len compressed_data) (len input_data) ;;
    if float_lt compression_ratio (fst st)
    then Ok (compression_ratio, Some compressed_data)
    else Ok st.

Fixpoint search_loop (input_data : bytes) (draws : list draw)
    (st : float * option bytes) : result (float * option bytes) :=
  match draws with
  | [] => Ok st
  | d :: draws' =>
      st' <- iteration input_data st d ;;
      search_loop input_data draws' st'
  end.

(** [rng i] is the draw of turn [i] of [range(max_iterations)]; the result
    is [(best_compressed_data, best_compression_ratio)]. *)
Definition find_best_iteration (rng : nat → draw) (input_data : bytes)
    (max_iterations : Z) : result (option bytes * float) :=
  st <- search_loop input_data (rng <$> seq 0 (Z.to_nat max_iterations))
          (inf, None) ;;
  Ok (snd st, fst st).

End Search.

End BH89.

(** What the loop of [find_best_iteration] keeps true of the best-so-far
    record: its blob is restored to the input, and its size is the length of
    its blob. *)
Definition restorable (paq_decompress : bytes → result bytes) (input : bytes)
    (st : BH94.best) : Prop :=
  BH94.decompress_data paq_decompress (BH94.best_data st) = Ok input
  ∧ BH94.best_size st = len (BH94.best_data st).

(** A coder that puts one byte in front of its input, and takes it away. *)
Definition tag_coder (b : bytes) : result bytes := Ok (x50 :: b).

Definition untag_coder (b : bytes) : result bytes :=
  match b with
  | [] => Raise PaqError
  | _ :: b' => Ok b'
  end.

(** * Properties *)

(** ** Bytes and big-endian fields *)

Section ByteFacts.

Lemma byte_to_Z_range (b : byte) : 0 <= byte_to_Z b < 256.
Proof.
  unfold byte_to_Z. pose proof (Byte.to_N_bounded b). lia.
Qed.

Lemma byte_of_to_Z (b : byte) : byte_of_Z (byte_to_Z b) = b.
Proof.
  unfold byte_of_Z. pose proof (byte_to_Z_range b) as Hr.
  rewrite Z.mod_small by exact Hr.
  unfold byte_to_Z. rewrite N2Z.id, Byte.of_to_N. reflexivity.
Qed.

Lemma byte_to_of_Z (z : Z) : byte_to_Z (byte_of_Z z) = z mod 256.
Proof.
  unfold byte_of_Z, byte_to_Z.
  pose proof (Z.mod_pos_bound z 256 ltac:(lia)) as Hr.
  destruct (Byte.of_N (Z.to_N (z mod 256))) as [b|] eqn:E.
  - simpl. apply Byte.to_of_N in E. rewrite E. lia.
  - apply Byte.of_N_None_iff in E. lia.
Qed.

Lemma byte_of_Z_congr (x y : Z) :
  x mod 256 = y mod 256 → byte_of_Z x = byte_of_Z y.
Proof. unfold byte_of_Z. intros ->. reflexivity. Qed.

Lemma lxor_mod_256 (a b : Z) :
  Z.lxor a b mod 256 = Z.lxor (a mod 256) (b mod 256).
Proof.
  change 256 with (2 ^ 8).
  rewrite <- !Z.land_ones by lia. apply Z.bits_inj'. intros n _.
  rewrite Z.lxor_spec, !Z.land_spec, Z.lxor_spec.
  destruct (Z.testbit a n), (Z.testbit b n), (Z.testbit (Z.ones 8) n);
    reflexivity.
Qed.

Lemma byte_xor_involutive (a : byte) (k : Z) : byte_xor (byte_xor a k) k = a.
Proof.
  unfold byte_xor. rewrite byte_to_of_Z.
  rewrite <- (byte_of_to_Z a) at 2. apply byte_of_Z_congr.
  rewrite lxor_mod_256, Z.mod_mod by lia.
  rewrite <- lxor_mod_256, Z.lxor_assoc, Z.lxor_nilpotent, Z.lxor_0_r.
  reflexivity.
Qed.

Lemma length_be_bytes (w : nat) (v : Z) : length (be_bytes w v) = w.
Proof. induction w as [|w IH]; simpl; [reflexivity | now rewrite IH]. Qed.

Lemma be_value_from (w : nat) (v acc : Z) :
  foldl (λ a b, a * 256 + byte_to_Z b) acc (be_bytes w v)
  = acc * 2 ^ (8 * Z.of_nat w) + v mod 2 ^ (8 * Z.of_nat w).
Proof.
  revert acc. induction w as [|w IH]; intros acc.
  - simpl. rewrite Z.mod_1_r. lia.
  - cbn [be_bytes foldl]. rewrite IH, byte_to_of_Z.
    change 255 with (Z.ones 8). rewrite Z.land_ones by lia.
    rewrite Z.mod_mod by lia.
    rewrite Z.shiftr_div_pow2 by lia.
    replace (8 * Z.of_nat (S w)) with (8 * Z.of_nat w + 8) by lia.
    rewrite Z.pow_add_r by lia.
    assert (0 < 2 ^ (8 * Z.of_nat w)) by (apply Z.pow_pos_nonneg; lia).
    rewrite (Z.rem_mul_r v (2 ^ (8 * Z.of_nat w)) (2 ^ 8)) by lia.
    change (2 ^ 8) with 256. lia.
Qed.

Lemma be_value_be_bytes (w : nat) (v : Z) :
  0 <= v < 2 ^ (8 * Z.of_nat w) → be_value (be_bytes w v) = v.
Proof.
  intros Hv. unfold be_value. rewrite be_value_from, Z.mod_small by exact Hv.
  lia.
Qed.

End ByteFacts.

(** ** Chunking *)

Section ChunkFacts.



Lemma chunked_pos (d : bytes) (c : Z) :
  0 < c → BH94.chunked d c = Ok (chunks (Z.to_nat c) d).
Proof.
  intros Hc. unfold BH94.chunked, range_step.
  destruct (decide (c = 0)); [lia|]. destruct (decide (c < 0)); [lia|].
  reflexivity.
Qed.

Lemma range_len_0 (k : nat) : (0 < k)%nat → range_len 0 k = 0%nat.
Proof. intros Hk. unfold range_len. apply Nat.div_small. lia. Qed.

Lemma range_len_S (n k : nat) :
  (0 < k)%nat → (0 < n)%nat → range_len n k = S (range_len (n - k) k).
Proof.
  intros Hk Hn. unfold range_len.
  destruct (le_lt_dec k n) as [Hle|Hlt].
  - replace (n + k - 1)%nat with ((n - k + k - 1) + 1 * k)%nat by lia.
    rewrite Nat.div_add by lia. lia.
  - replace (n - k)%nat with 0%nat by lia.
    rewrite (Nat.div_small (0 + k - 1) k) by lia.
    replace (n + k - 1)%nat with ((n - 1) + 1 * k)%nat by lia.
    rewrite Nat.div_add, Nat.div_small by lia. reflexivity.
Qed.

Lemma range_len_bounds (n k : nat) :
  (0 < k)%nat → (n ≤ range_len n k * k < n + k)%nat.
Proof.
  intros Hk. unfold range_len.
  pose proof (Nat.div_mod (n + k - 1) k ltac:(lia)) as E.
  pose proof (Nat.mod_upper_bound (n + k - 1) k ltac:(lia)) as B.
  nia.
Qed.

Lemma chunks_nil (k : nat) : (0 < k)%nat → chunks k [] = [].
Proof. intros Hk. unfold chunks. simpl. now rewrite range_len_0. Qed.

Lemma chunks_cons (k : nat) (d : bytes) :
  (0 < k)%nat → d ≠ [] → chunks k d = take k d :: chunks k (drop k d).
Proof.
  intros Hk Hd. unfold chunks.
  assert (0 < length d)%nat as Hn by (destruct d; [done | simpl; lia]).
  rewrite (range_len_S (length d) k Hk Hn), length_drop.
  cbn [seq fmap list_fmap]. f_equal.
  - unfold slice. simpl. f_equal. lia.
  - rewrite <- fmap_S_seq, <- !list_fmap_compose.
    apply list_fmap_ext. intros _ j _. unfold slice, compose.
    rewrite drop_drop. f_equal; lia.
Qed.

(** Induction on a payload, one chunk at a time. *)
Lemma chunk_ind (k : nat) (P : bytes → Prop) :
  (0 < k)%nat →
  P [] →
  (∀ d, d ≠ [] → P (drop k d) → P d) →
  ∀ d, P d.
Proof.
  intros Hk Hnil Hstep d.
  remember (length d) as n eqn:Hn.
  revert d Hn. induction (lt_wf n) as [n _ IH]. intros d ->.
  destruct d as [|b d]; [exact Hnil|].
  apply Hstep; [done|].
  apply (IH (length (drop k (b :: d)))); [|reflexivity].
  rewrite length_drop. simpl. lia.
Qed.

Lemma concat_chunks (k : nat) (d : bytes) :
  (0 < k)%nat → concat (chunks k d) = d.
Proof.
  intros Hk. pattern d. apply (chunk_ind k); [exact Hk | | clear d; intros d Hd IH].
  - now rewrite chunks_nil.
  - rewrite chunks_cons by assumption. simpl. rewrite IH. apply take_drop.
Qed.

Lemma length_chunks (k : nat) (d : bytes) :
  length (chunks k d) = range_len (length d) k.
Proof. unfold chunks. now rewrite !length_fmap, length_seq. Qed.

Lemma well_chunked_chunks (k : nat) (d : bytes) :
  (0 < k)%nat → well_chunked k (chunks k d).
Proof.
  intros Hk. pattern d. apply (chunk_ind k); [exact Hk | | clear d; intros d Hd IH].
  - now rewrite chunks_nil.
  - rewrite chunks_cons by assumption.
    assert (0 < length d)%nat as Hn by (destruct d; [done | simpl; lia]).
    destruct (drop k d) as [|b r] eqn:E.
    + rewrite chunks_nil by assumption. simpl. rewrite length_take. lia.
    + rewrite chunks_cons in IH |- * by (assumption || done).
      split; [|exact IH].
      apply length_take_le.
      pose proof (length_drop d k) as L. rewrite E in L. simpl in L. lia.
Qed.

Lemma chunks_concat (k : nat) (L : list bytes) :
  (0 < k)%nat → well_chunked k L → chunks k (concat L) = L.
Proof.
  intros Hk. induction L as [|x L IH]; intros HL.
  - simpl. now apply chunks_nil.
  - destruct L as [|y L].
    + simpl in *. rewrite app_nil_r.
      rewrite chunks_cons by (assumption || (destruct x; [simpl in HL; lia | done])).
      rewrite take_ge, drop_ge by lia. now rewrite chunks_nil.
    + destruct HL as [Hx HL]. cbn [concat].
      rewrite chunks_cons;
        [| assumption | destruct x; [simpl in Hx; lia | done]].
      rewrite take_app_length', drop_app_length' by (symmetry; exact Hx).
      f_equal. apply IH, HL.
Qed.

Lemma well_chunked_lengths (k : nat) (L L' : list bytes) :
  length <$> L = length <$> L' → well_chunked k L → well_chunked k L'.
Proof.
  revert L'. induction L as [|x L IH]; intros [|x' L'] E; try done.
  injection E as Ex E.
  destruct L as [|y L], L' as [|y' L']; try done.
  - simpl. lia.
  - intros [Hx HL]. split; [lia|]. apply IH; assumption.
Qed.

End ChunkFacts.

(** ** The positions loop *)

Section ReverseFacts.

Import BH94.

Lemma length_reverse_at (L : list bytes) (p : Z) :
  length (reverse_at L p) = length L.
Proof.
  unfold reverse_at. case_decide; [apply length_alter | reflexivity].
Qed.

Lemma lengths_alter_reverse (L : list bytes) (i : nat) :
  length <$> alter reverse i L = length <$> L.
Proof.
  revert i. induction L as [|x L IH]; intros [|i]; simpl; try reflexivity.
  - now rewrite length_reverse.
  - f_equal. apply IH.
Qed.

Lemma lengths_reverse_at (L : list bytes) (p : Z) :
  length <$> reverse_at L p = length <$> L.
Proof.
  unfold reverse_at. case_decide; [apply lengths_alter_reverse | reflexivity].
Qed.

Lemma lengths_foldl_reverse_at (ps : list Z) (L : list bytes) :
  length <$> foldl reverse_at L ps = length <$> L.
Proof.
  revert L. induction ps as [|p ps IH]; intros L; simpl; [reflexivity|].
  now rewrite IH, lengths_reverse_at.
Qed.

Lemma reverse_at_twice (L : list bytes) (p : Z) :
  reverse_at (reverse_at L p) p = L.
Proof.
  unfold reverse_at at 2. case_decide as Hp; unfold reverse_at, len.
  - rewrite length_alter. rewrite decide_True by exact Hp.
    rewrite list_alter_alter_eq. apply list_alter_id.
    intros x. apply reverse_involutive.
  - rewrite decide_False by exact Hp. reflexivity.
Qed.

Lemma reverse_at_comm (L : list bytes) (p q : Z) :
  reverse_at (reverse_at L p) q = reverse_at (reverse_at L q) p.
Proof.
  unfold reverse_at, len.
  destruct (decide (0 <= p < Z.of_nat (length L))) as [Hp|Hp],
           (decide (0 <= q < Z.of_nat (length L))) as [Hq|Hq];
    rewrite ?length_alter;
    rewrite ?(decide_True _ _ Hp), ?(decide_True _ _ Hq),
            ?(decide_False _ _ Hp), ?(decide_False _ _ Hq);
    try reflexivity.
  destruct (decide (Z.to_nat q = Z.to_nat p)) as [->|Hne]; [reflexivity|].
  now apply list_alter_alter_ne.
Qed.

Lemma reverse_at_foldl (ps : list Z) (L : list bytes) (p : Z) :
  reverse_at (foldl reverse_at L ps) p = foldl reverse_at (reverse_at L p) ps.
Proof.
  revert L. induction ps as [|q ps IH]; intros L; simpl; [reflexivity|].
  now rewrite IH, reverse_at_comm.
Qed.

Lemma foldl_reverse_at_twice (ps : list Z) (L : list bytes) :
  foldl reverse_at (foldl reverse_at L ps) ps = L.
Proof.
  revert L. induction ps as [|p ps IH]; intros L; simpl; [reflexivity|].
  rewrite <- reverse_at_foldl, reverse_at_foldl, <- reverse_at_foldl.
  rewrite IH. apply reverse_at_twice.
Qed.

(** A position outside [0 <= pos < len(chunked_data)] is skipped. *)
Lemma reverse_at_out_of_range (L : list bytes) (p : Z) :
  ¬ (0 <= p < len L) → reverse_at L p = L.
Proof. intros Hp. unfold reverse_at. now rewrite decide_False. Qed.

Lemma foldl_reverse_at_filter (n : Z) (ps : list Z) (L : list bytes) :
  len L = n →
  foldl reverse_at L (filter (λ p, 0 <= p < n) ps) = foldl reverse_at L ps.
Proof.
  revert L. induction ps as [|p ps IH]; intros L HL; [reflexivity|].
  rewrite filter_cons. case_decide as Hp; cbn [foldl].
  - apply IH. unfold len in *. now rewrite length_reverse_at.
  - rewrite (reverse_at_out_of_range L p) by now rewrite HL.
    now apply IH.
Qed.

Lemma reverse_chunks_pos (d : bytes) (c : Z) (ps : list Z) :
  0 < c →
  reverse_chunks d c ps
  = Ok (concat (foldl reverse_at (chunks (Z.to_nat c) d) ps)).
Proof. intros Hc. unfold reverse_chunks. now rewrite chunked_pos. Qed.

Lemma length_concat_lengths (L L' : list bytes) :
  length <$> L = length <$> L' → length (concat L) = length (concat L').
Proof.
  revert L'. induction L as [|x L IH]; intros [|x' L'] E; try done.
  injection E as Ex E. simpl. rewrite !length_app, Ex. f_equal. now apply IH.
Qed.

Lemma reverse_chunks_length (d r : bytes) (c : Z) (ps : list Z) :
  reverse_chunks d c ps = Ok r → c < 0 ∨ length r = length d.
Proof.
  destruct (decide (0 < c)) as [Hc|Hc].
  - rewrite reverse_chunks_pos by exact Hc. intros [= <-]. right.
    rewrite (length_concat_lengths _ (chunks (Z.to_nat c) d))
      by apply lengths_foldl_reverse_at.
    rewrite concat_chunks by lia. reflexivity.
  - intros H. left. destruct (decide (c = 0)) as [->|]; [|lia].
    discriminate H.
Qed.

Lemma reverse_chunks_twice (d : bytes) (c : Z) (ps : list Z) :
  0 < c →
  ∃ t, reverse_chunks d c ps = Ok t ∧ reverse_chunks t c ps = Ok d.
Proof.
  intros Hc. eexists. split; [apply reverse_chunks_pos, Hc|].
  rewrite reverse_chunks_pos by exact Hc.
  rewrite chunks_concat; [| lia |].
  - rewrite foldl_reverse_at_twice, concat_chunks by lia. reflexivity.
  - eapply well_chunked_lengths; [| apply (well_chunked_chunks _ d); lia].
    symmetry. apply lengths_foldl_reverse_at.
Qed.

(** *** XOR commutes with the chunk reversal *)

Lemma fmap_concat {A B} (f : A → B) (L : list (list A)) :
  f <$> concat L = concat (fmap (M:=list) f <$> L).
Proof.
  induction L as [|x L IH]; simpl; [reflexivity|].
  now rewrite fmap_app, IH.
Qed.

Lemma chunks_fmap (f : byte → byte) (k : nat) (d : bytes) :
  chunks k (f <$> d) = fmap (M:=list) f <$> chunks k d.
Proof.
  unfold chunks. rewrite length_fmap, <- !list_fmap_compose.
  apply list_fmap_ext. intros _ j _. unfold compose, slice.
  now rewrite fmap_take, fmap_drop.
Qed.

Lemma reverse_at_fmap (f : byte → byte) (L : list bytes) (p : Z) :
  reverse_at (fmap (M:=list) f <$> L) p = fmap (M:=list) f <$> reverse_at L p.
Proof.
  unfold reverse_at, len. rewrite length_fmap.
  repeat case_decide; try reflexivity; try tauto.
  symmetry. apply list_fmap_alter, Forall_forall. intros x _.
  apply fmap_reverse.
Qed.

Lemma foldl_reverse_at_fmap (f : byte → byte) (ps : list Z) (L : list bytes) :
  foldl reverse_at (fmap (M:=list) f <$> L) ps
  = fmap (M:=list) f <$> foldl reverse_at L ps.
Proof.
  revert L. induction ps as [|p ps IH]; intros L; simpl; [reflexivity|].
  now rewrite reverse_at_fmap, IH.
Qed.

Lemma apply_calculus_involutive (d : bytes) (v : Z) :
  apply_calculus (apply_calculus d v) v = d.
Proof.
  unfold apply_calculus. rewrite <- list_fmap_compose.
  rewrite <- (list_fmap_id d) at 2. apply list_fmap_ext.
  intros _ b _. apply byte_xor_involutive.
Qed.

Lemma reverse_chunks_apply_calculus (d : bytes) (v c : Z) (ps : list Z) :
  reverse_chunks (apply_calculus d v) c ps
  = (r <- reverse_chunks d c ps ;; Ok (apply_calculus r v)).
Proof.
  destruct (decide (0 < c)) as [Hc|Hc].
  - rewrite !reverse_chunks_pos by exact Hc. cbn [bind]. f_equal.
    unfold apply_calculus.
    now rewrite chunks_fmap, foldl_reverse_at_fmap, fmap_concat.
  - unfold reverse_chunks, chunked, apply_calculus, range_step.
    destruct (decide (c = 0)); [reflexivity|].
    destruct (decide (c < 0)); [|lia].
    cbn [bind fmap list_fmap]. f_equal.
    now rewrite fmap_concat, <- foldl_reverse_at_fmap.
Qed.

End ReverseFacts.

(** ** The container *)

Section ContainerFacts.

Import BH94.



Lemma pack_uint_fits (w : nat) (v : Z) :
  fits w v → pack_uint w v = Ok (be_bytes w v).
Proof. intros Hv. unfold pack_uint. now rewrite decide_True. Qed.

Lemma pack_uint_overflow (w : nat) (v : Z) :
  ¬ fits w v → pack_uint w v = Raise StructError.
Proof. intros Hv. unfold pack_uint. now rewrite decide_False. Qed.

Lemma pack_array_fits (w : nat) (vs : list Z) :
  Forall (fits w) vs → pack_array w vs = Ok (flat w vs).
Proof.
  induction 1 as [|v vs Hv _ IH]; [reflexivity|].
  cbn [pack_array]. rewrite pack_uint_fits, IH by exact Hv. reflexivity.
Qed.

Lemma flat_cons (w : nat) (v : Z) (vs : list Z) :
  flat w (v :: vs) = be_bytes w v ++ flat w vs.
Proof. reflexivity. Qed.

Lemma length_flat (w : nat) (vs : list Z) :
  length (flat w vs) = (length vs * w)%nat.
Proof.
  induction vs as [|v vs IH]; [reflexivity|].
  rewrite flat_cons, length_app, length_be_bytes, IH. simpl. lia.
Qed.

Lemma split_fields_flat (w : nat) (vs : list Z) :
  Forall (fits w) vs → split_fields w (length vs) (flat w vs) = vs.
Proof.
  induction 1 as [|v vs Hv _ IH]; [reflexivity|].
  rewrite flat_cons. cbn [length split_fields].
  rewrite take_app_length', drop_app_length' by now rewrite length_be_bytes.
  rewrite be_value_be_bytes by exact Hv. f_equal. exact IH.
Qed.

Lemma unpack_array_flat (w : nat) (vs : list Z) :
  Forall (fits w) vs → unpack_array w (length vs) (flat w vs) = Ok vs.
Proof.
  intros Hvs. unfold unpack_array.
  rewrite decide_True by apply length_flat.
  now rewrite split_fields_flat.
Qed.


Lemma container_layout (data : bytes) (c : Z) (ps : list Z) (osz cv : Z) :
  fits 4 osz → fits 4 c → fits 4 cv → Forall (fits 4) ps → len ps <= 65535 →
  container data c ps osz cv = Ok (layout data c ps osz cv).
Proof.
  intros Ho Hc Hv Hps Hn. unfold container.
  rewrite !pack_uint_fits by assumption. cbn [bind].
  rewrite decide_False by lia.
  rewrite pack_uint_fits by (unfold fits, len in *; simpl; lia).
  rewrite pack_array_fits by exact Hps. cbn [bind].
  unfold layout, flat. cbn [fmap list_fmap concat].
  now rewrite !app_nil_r, <- !app_assoc.
Qed.

Lemma slice_prefix {A} (a rest : list A) (n : nat) :
  n = length a → slice (a ++ rest) 0 n = a.
Proof.
  intros ->. unfold slice. rewrite Nat.sub_0_r, drop_0.
  apply take_app_length.
Qed.

Lemma slice_skip {A} (a rest : list A) (i j : nat) :
  i = length a → slice (a ++ rest) i j = slice rest 0 (j - i).
Proof.
  intros ->. unfold slice. now rewrite Nat.sub_0_r, drop_0, drop_app_length.
Qed.

Lemma to_nat_len {A} (l : list A) : Z.to_nat (len l) = length l.
Proof. apply Nat2Z.id. Qed.

Lemma parse_layout (data : bytes) (c : Z) (ps : list Z) (osz cv : Z) :
  fits 4 osz → fits 4 c → fits 4 cv → Forall (fits 4) ps → len ps <= 65535 →
  parse_container (layout data c ps osz cv) = Ok (Header osz c cv ps data).
Proof.
  intros Ho Hc Hv Hps Hn.
  assert (Forall (fits 4) [osz; c; cv]) as H3
    by (repeat first [apply Forall_nil | apply Forall_cons; [assumption|]]).
  assert (Forall (fits 2) [len ps]) as H1.
  { apply Forall_cons; [|apply Forall_nil]. unfold fits, len in *; simpl; lia. }
  unfold parse_container, layout.
  rewrite slice_prefix by now rewrite length_flat.
  pose proof (unpack_array_flat 4 _ H3) as E3. cbn [length] in E3.
  pose proof (unpack_array_flat 2 _ H1) as E1. cbn [length] in E1.
  rewrite E3. cbn [bind].
  rewrite slice_skip by now rewrite length_flat.
  rewrite slice_prefix by now rewrite length_flat.
  rewrite E1. cbn [bind].
  rewrite !to_nat_len.
  rewrite (app_assoc (flat 4 [osz; c; cv])).
  rewrite slice_skip by (rewrite length_app, !length_flat; reflexivity).
  rewrite slice_prefix by (rewrite length_flat; lia).
  rewrite (unpack_array_flat 4 ps Hps). cbn [bind].
  rewrite (app_assoc _ (flat 4 ps)).
  rewrite drop_app_length'
    by (rewrite !length_app, !length_flat; simpl; lia).
  reflexivity.
Qed.

End ContainerFacts.

(** ** Compression, decompression and the search loop of Black_Hole_94 *)

Section PipelineFacts.

Import BH94.

Variable paq_compress : bytes → result bytes.
Variable paq_decompress : bytes → result bytes.

Lemma fits_4 (v : Z) : fits 4 v ↔ 0 <= v < 4294967296.
Proof. reflexivity. Qed.

Lemma take_len {A} (l : list A) : take (Z.to_nat (len l)) l = l.
Proof. rewrite to_nat_len. now apply take_ge. Qed.

(** [decompress_data] undoes lines 61-63 of [find_best_iteration] whenever
    [paq.decompress] undoes [paq.compress]. *)
Lemma decompress_compress (d : bytes) (c v : Z) (ps : list Z) (t z : bytes) :
  (∀ x y, paq_compress x = Ok y → paq_decompress y = Ok x) →
  0 < c → fits 4 c → fits 4 (len d) → fits 4 v →
  Forall (fits 4) ps → len ps <= 65535 →
  reverse_chunks (apply_calculus d v) c ps = Ok t →
  compress_data paq_compress t c ps (len d) v = Ok z →
  decompress_data paq_decompress z = Ok d.
Proof.
  intros Hinv Hc Hfc Hfd Hfv Hps Hn Ht Hz.
  unfold compress_data in Hz. rewrite container_layout in Hz by assumption.
  cbn [bind] in Hz. apply Hinv in Hz.
  unfold decompress_data, decompress_body. rewrite Hz. cbn [bind].
  rewrite parse_layout by assumption. cbn [bind payload chunk_size positions
    calculus_value original_size].
  destruct (reverse_chunks_twice (apply_calculus d v) c ps Hc) as (t' & Ht' & Hback).
  rewrite Ht in Ht'. injection Ht' as <-.
  rewrite Hback. cbn [bind].
  now rewrite apply_calculus_involutive, take_len.
Qed.

Lemma iteration_spec (input : bytes) (c : Z) (st st' : best) (d : draw) :
  iteration paq_compress input c st d = Ok st' →
  ∃ z, candidate paq_compress input c d = Ok z ∧
       if decide (len z < best_size st)
       then best_size st' = len z ∧ best_data st' = z
       else st' = st.
Proof.
  unfold iteration. destruct (floordiv (len input) c) as [m|e]; [|done].
  cbn [bind]. case_decide; [done|].
  destruct (candidate paq_compress input c d) as [z|e]; [|done].
  cbn [bind]. intros Hst. exists z. split; [reflexivity|].
  destruct (decide (len z < best_size st)).
  - destruct (truediv (len z) (len input)) as [q|e]; [|done].
    cbn [bind] in Hst. injection Hst as <-. done.
  - now injection Hst as <-.
Qed.

Lemma iteration_best_size (input : bytes) (c : Z) (st st' : best) (d : draw) :
  iteration paq_compress input c st d = Ok st' → best_size st' <= best_size st.
Proof.
  intros H. apply iteration_spec in H as (z & _ & H).
  destruct (decide (len z < best_size st)); [lia | subst; lia].
Qed.

Lemma search_trace_bounded (input : bytes) (c : Z) (draws : list draw) (st : best) :
  Forall (λ s, best_size s <= best_size st)
    (search_trace paq_compress input c draws st).
Proof.
  revert st. induction draws as [|d draws IH]; intros st; cbn [search_trace].
  - apply Forall_cons; [lia | apply Forall_nil].
  - apply Forall_cons; [lia|].
    destruct (iteration paq_compress input c st d) as [st'|e] eqn:E;
      [|apply Forall_nil].
    apply iteration_best_size in E.
    eapply Forall_impl; [|apply IH]. cbn. intros s Hs. lia.
Qed.

Lemma search_trace_sorted (input : bytes) (c : Z) (draws : list draw) (st : best) :
  StronglySorted (λ a b, best_size b <= best_size a)
    (search_trace paq_compress input c draws st).
Proof.
  revert st. induction draws as [|d draws IH]; intros st; cbn [search_trace].
  - repeat constructor.
  - constructor.
    + destruct (iteration paq_compress input c st d); [apply IH | constructor].
    + destruct (iteration paq_compress input c st d) as [st'|e] eqn:E;
        [|apply Forall_nil].
      apply iteration_best_size in E.
      eapply Forall_impl; [|apply search_trace_bounded]. cbn. intros s Hs. lia.
Qed.

Lemma search_trace_head (input : bytes) (c : Z) (draws : list draw) (st : best) :
  search_trace paq_compress input c draws st !! 0%nat = Some st.
Proof. destruct draws; reflexivity. Qed.

Lemma search_trace_step (input : bytes) (c : Z) (draws : list draw)
    (st0 st st' : best) (d : draw) (i : nat) :
  search_trace paq_compress input c draws st0 !! i = Some st →
  search_trace paq_compress input c draws st0 !! S i = Some st' →
  draws !! i = Some d →
  iteration paq_compress input c st d = Ok st'.
Proof.
  revert st0 i. induction draws as [|d0 draws IH]; intros st0 i Hi HS Hd; [done|].
  cbn [search_trace] in Hi, HS. destruct i as [|i].
  - cbn in Hi, Hd. injection Hi as ->. injection Hd as ->.
    cbn in HS. destruct (iteration paq_compress input c st d) as [s|e]; [|done].
    rewrite search_trace_head in HS. congruence.
  - cbn in Hi, HS, Hd.
    destruct (iteration paq_compress input c st0 d0) as [s|e]; [|done].
    eapply IH; eassumption.
Qed.

(** *** No exception under a coder that never fails *)

Hypothesis paq_total : ∀ x, ∃ y, paq_compress x = Ok y.

Lemma valid_draw_fits (n c : Z) (d : draw) :
  0 < c → fits 4 n → valid_draw n c d →
  fits 4 (draw_calculus_value d) ∧ Forall (fits 4) (draw_positions d)
  ∧ len (draw_positions d) <= 65535.
Proof.
  intros Hc Hn (Hv & _ & _ & Hps & Hlen). rewrite fits_4 in *.
  assert (n / c <= n) by (apply Z.div_le_upper_bound; nia).
  repeat split; try lia.
  - eapply Forall_impl; [|exact Hps]. cbn. intros p Hp. rewrite fits_4. lia.
  - unfold MAX_POSITIONS in Hlen. lia.
Qed.

Lemma candidate_ok (input : bytes) (c : Z) (d : draw) :
  0 < c → fits 4 c → fits 4 (len input) → valid_draw (len input) c d →
  ∃ z, candidate paq_compress input c d = Ok z.
Proof.
  intros Hc Hfc Hfn Hd.
  destruct (valid_draw_fits _ _ _ Hc Hfn Hd) as (Hv & Hps & Hlen).
  unfold candidate. rewrite reverse_chunks_pos by exact Hc. cbn [bind].
  unfold compress_data. rewrite container_layout by assumption. cbn [bind].
  apply paq_total.
Qed.

Lemma iteration_ok (input : bytes) (c : Z) (st : best) (d : draw) :
  input ≠ [] → 0 < c → fits 4 c → fits 4 (len input) →
  valid_draw (len input) c d →
  ∃ st', iteration paq_compress input c st d = Ok st'.
Proof.
  intros Hne Hc Hfc Hfn Hd.
  destruct (candidate_ok input c d Hc Hfc Hfn Hd) as [z Hz].
  unfold iteration, floordiv. rewrite decide_False by lia. cbn [bind].
  assert (0 <= len input / c) by (apply Z.div_pos; unfold len; lia).
  rewrite decide_False by (unfold MAX_POSITIONS; lia).
  rewrite Hz. cbn [bind]. case_decide; [|eauto].
  unfold truediv. rewrite decide_False; [cbn [bind]; eauto|].
  destruct input; [done | unfold len; simpl; lia].
Qed.

Lemma search_loop_ok (input : bytes) (c : Z) (draws : list draw) (st : best) :
  input ≠ [] → 0 < c → fits 4 c → fits 4 (len input) →
  Forall (valid_draw (len input) c) draws →
  ∃ st', search_loop paq_compress input c draws st = Ok st'
         ∧ best_size st' <= best_size st
         ∧ (Forall (λ d, ∀ z, candidate paq_compress input c d = Ok z →
                          best_size st <= len z) draws → st' = st).
Proof.
  intros Hne Hc Hfc Hfn Hds. revert st.
  induction Hds as [|d draws Hd _ IH]; intros st; cbn [search_loop].
  - exists st. split; [reflexivity|]. split; [lia | done].
  - destruct (iteration_ok input c st d Hne Hc Hfc Hfn Hd) as [s Hs].
    rewrite Hs. cbn [bind]. destruct (IH s) as (st' & Hloop & Hle & Hsame).
    exists st'. pose proof (iteration_best_size _ _ _ _ _ Hs) as Hle'.
    apply iteration_spec in Hs as (z & Hz & Hcase).
    split; [exact Hloop|]. split; [lia|].
    intros Hall. apply Forall_cons_1 in Hall as [Hhd Htl].
    specialize (Hhd z Hz). rewrite decide_False in Hcase by lia. subst s.
    now apply Hsame.
Qed.

End PipelineFacts.

(** ** The padding variant of Black_Hole_65 *)

Section PaddingFacts.

Import BH65.


Lemma alter_last_cons {A} (f : A → A) (x y : A) (L : list A) :
  alter f (length (x :: y :: L) - 1)%nat (x :: y :: L)
  = x :: alter f (length (y :: L) - 1)%nat (y :: L).
Proof. cbn [length]. rewrite !Nat.sub_succ, !Nat.sub_0_r. reflexivity. Qed.

Lemma padded_full (c : Z) (L : list bytes) (t : bytes) :
  0 < c → well_chunked (Z.to_nat c) L → list.last L = Some t →
  Forall (λ x, length x = Z.to_nat c) (padded c L t).
Proof.
  intros Hc. unfold padded. induction L as [|x L IH]; intros HL Ht; [done|].
  destruct L as [|y L].
  - cbn in Ht. injection Ht as ->. cbn in HL.
    case_decide as Hlt; apply Forall_singleton.
    + cbn. unfold pad. rewrite length_app, length_replicate. unfold len in *. lia.
    + unfold len in Hlt. lia.
  - destruct HL as [Hx HL]. rewrite last_cons_cons in Ht.
    specialize (IH HL Ht). case_decide.
    + rewrite alter_last_cons. apply Forall_cons_2; assumption.
    + apply Forall_cons_2; assumption.
Qed.

Lemma concat_padded (c : Z) (L : list bytes) (t : bytes) :
  list.last L = Some t →
  ∃ z, concat (padded c L t) = concat L ++ replicate z x00.
Proof.
  unfold padded. case_decide.
  - induction L as [|x L IH]; intros Ht; [done|]. destruct L as [|y L].
    + cbn in Ht. injection Ht as ->. eexists. cbn. unfold pad.
      now rewrite !app_nil_r.
    + rewrite last_cons_cons in Ht. destruct (IH Ht) as [z Hz].
      exists z. rewrite alter_last_cons. cbn [concat] in *.
      now rewrite Hz, app_assoc.
  - intros _. exists 0%nat. now rewrite app_nil_r.
Qed.

Lemma length_concat_full (k : nat) (L : list bytes) :
  Forall (λ x, length x = k) L → length (concat L) = (length L * k)%nat.
Proof.
  induction 1 as [|x L Hx _ IH]; [reflexivity|].
  cbn. rewrite length_app, IH, Hx. reflexivity.
Qed.

Lemma length_padded (c : Z) (L : list bytes) (t : bytes) :
  length (padded c L t) = length L.
Proof. unfold padded. case_decide; [apply length_alter | reflexivity]. Qed.

Lemma reverse_chunks_body_pos (d : bytes) (c : Z) (ps : list Z) (t : bytes) :
  0 < c → list.last (chunks (Z.to_nat c) d) = Some t →
  reverse_chunks_body d c ps
  = Ok (concat (foldl BH94.reverse_at (padded c (chunks (Z.to_nat c) d) t) ps)).
Proof.
  intros Hc Ht. unfold reverse_chunks_body. rewrite chunked_pos by exact Hc.
  cbn [bind]. unfold last_chunk. rewrite Ht. reflexivity.
Qed.

Lemma chunks_last (k : nat) (d : bytes) :
  (0 < k)%nat → d ≠ [] → ∃ t, list.last (chunks k d) = Some t.
Proof.
  intros Hk Hd. apply last_is_Some. now rewrite chunks_cons.
Qed.

(** For a non-empty payload the output is [numChunks * chunk_size] bytes
    long; with no position listed it is the payload followed by zeros. *)
Lemma reverse_chunks_in_memory_padded (d : bytes) (c : Z) (ps : list Z) :
  d ≠ [] → 0 < c →
  ∃ r, reverse_chunks_in_memory d c ps = Some r
       ∧ length r = (range_len (length d) (Z.to_nat c) * Z.to_nat c)%nat
       ∧ ∃ z, reverse_chunks_in_memory d c [] = Some (d ++ replicate z x00).
Proof.
  intros Hd Hc.
  destruct (chunks_last (Z.to_nat c) d ltac:(lia) Hd) as [t Ht].
  unfold reverse_chunks_in_memory.
  rewrite !(reverse_chunks_body_pos d c _ t Hc Ht).
  eexists. split; [reflexivity|]. split.
  - rewrite (length_concat_lengths _ (padded c (chunks (Z.to_nat c) d) t))
      by apply lengths_foldl_reverse_at.
    rewrite (length_concat_full (Z.to_nat c)).
    + now rewrite length_padded, length_chunks.
    + apply padded_full; [exact Hc | | exact Ht].
      apply well_chunked_chunks. lia.
  - cbn [foldl]. destruct (concat_padded c _ t Ht) as [z Hz].
    exists z. rewrite Hz, concat_chunks by lia. reflexivity.
Qed.

Lemma reverse_chunks_in_memory_empty (c : Z) (ps : list Z) :
  reverse_chunks_in_memory [] c ps = None.
Proof.
  unfold reverse_chunks_in_memory, reverse_chunks_body, BH94.chunked, range_step.
  destruct (decide (c = 0)); [reflexivity|].
  destruct (decide (c < 0)); [reflexivity|].
  cbn [length]. rewrite range_len_0 by lia. reflexivity.
Qed.

End PaddingFacts.

(** * The claims *)

Section Claims.

Import BH94.

Lemma num_chunks_pos (d : bytes) (c : Z) :
  0 < c → num_chunks d c = Z.of_nat (range_len (length d) (Z.to_nat c)).
Proof.
  intros Hc. unfold num_chunks. rewrite chunked_pos by exact Hc.
  unfold len. now rewrite length_chunks.
Qed.

Lemma byte_xor_value (b : byte) (v : Z) :
  byte_to_Z (byte_xor b (Z.land v 255))
  = Z.lxor (byte_to_Z b) (Z.land v 255).
Proof.
  unfold byte_xor. rewrite byte_to_of_Z, lxor_mod_256.
  pose proof (byte_to_Z_range b).
  change 255 with (Z.ones 8). rewrite Z.land_ones by lia.
  rewrite Z.mod_mod by lia. now rewrite (Z.mod_small (byte_to_Z b)) by lia.
Qed.

(** C1. For every payload [P], every chunk size [c > 0] and every list of
    distinct positions, each in [[0, numChunks)]: applying [reverse_chunks]
    with [(c, positions)], applying it again with the same [(c, positions)]
    and truncating the result to [len(P)] gives back exactly [P]. *)
Theorem reverse_chunks_round_trip (P : bytes) (c : Z) (positions : list Z) :
  0 < c →
  NoDup positions →
  Forall (λ p, 0 <= p < num_chunks P c) positions →
  ∃ T R, reverse_chunks P c positions = Ok T
         ∧ reverse_chunks T c positions = Ok R
         ∧ take (length P) R = P.
Proof.
  intros Hc _ _.
  destruct (reverse_chunks_twice P c positions Hc) as (T & HT & HR).
  exists T, P. repeat split; try assumption. now apply take_ge.
Qed.

(** C1 on a five-byte payload with three chunks. *)
Lemma reverse_chunks_round_trip_witness :
  ∃ T R, reverse_chunks [x01; x02; x03; x04; x05] 2 [2; 0] = Ok T
         ∧ reverse_chunks T 2 [2; 0] = Ok R
         ∧ take 5 R = [x01; x02; x03; x04; x05].
Proof.
  apply (reverse_chunks_round_trip [x01; x02; x03; x04; x05] 2 [2; 0]).
  - lia.
  - apply (bool_decide_unpack _). vm_compute. exact I.
  - apply (bool_decide_unpack _). vm_compute. exact I.
Defined.

(** C2. For every plan whose positions have no duplicates and are at most
    [MAX_POSITIONS] many, and every transformed payload, parsing the bytes
    that [compress_data] hands to the coder gives back the original size, the
    chunk size, the positions in the same order and the payload, byte for
    byte (together with the calculus value the container also carries).
    The header fields are unsigned 32-bit values, as [struct] packs them. *)
Theorem container_fidelity (data : bytes) (c : Z) (ps : list Z) (osz cv : Z) :
  NoDup ps →
  len ps <= MAX_POSITIONS →
  fits 4 osz → fits 4 c → fits 4 cv → Forall (fits 4) ps →
  ∃ blob, container data c ps osz cv = Ok blob
          ∧ parse_container blob = Ok (Header osz c cv ps data).
Proof.
  intros _ Hn Ho Hc Hv Hps. unfold MAX_POSITIONS in Hn.
  exists (layout data c ps osz cv). split.
  - apply container_layout; try assumption. lia.
  - apply parse_layout; try assumption. lia.
Qed.

(** C2 on a plan with two positions. *)
Lemma container_fidelity_witness :
  ∃ blob, container [xaa; xbb; xcc] 2 [1; 0] 3 258 = Ok blob
          ∧ parse_container blob = Ok (Header 3 2 258 [1; 0] [xaa; xbb; xcc]).
Proof.
  apply container_fidelity.
  - apply (bool_decide_unpack _). vm_compute. exact I.
  - vm_compute. discriminate.
  - rewrite fits_4. lia.
  - rewrite fits_4. lia.
  - rewrite fits_4. lia.
  - repeat (apply Forall_cons_2; [rewrite fits_4; lia|]). apply Forall_nil_2.
Defined.

(** C7, counterexample. Position [5] is outside [[0, numChunks)] for a
    one-byte payload with chunk size 1, and [reverse_chunks] returns the
    payload instead of raising. *)
Lemma out_of_range_position_not_rejected :
  ¬ ((∃ e, reverse_chunks [x01] 1 [5] = Raise e)
     ↔ (1 = 0 ∨ Exists (λ p, ¬ (0 <= p < num_chunks [x01] 1)) [5])).
Proof.
  intros [_ H]. destruct H as [e He].
  - right. apply Exists_cons_hd. vm_compute. intros [_ H]. discriminate H.
  - discriminate He.
Qed.

(** C7, amended. [reverse_chunks] raises exactly when the chunk size is 0,
    and what it raises is [range]'s [ValueError]; a listed position outside
    [[0, numChunks)] is skipped by the guard of the loop, so the result is
    the one of the in-range positions alone. *)
Theorem reverse_chunks_raises_iff (d : bytes) (c : Z) (ps : list Z) :
  match reverse_chunks d c ps with
  | Raise e => c = 0 ∧ e = ValueError
  | Ok _ => c ≠ 0
  end
  ∧ reverse_chunks d c (filter (λ p, 0 <= p < num_chunks d c) ps)
    = reverse_chunks d c ps.
Proof.
  unfold num_chunks, reverse_chunks, chunked, range_step.
  destruct (decide (c = 0)) as [->|Hc]; [split; [split|]; reflexivity|].
  destruct (decide (c < 0)); cbn [bind]; (split; [exact Hc|]);
    f_equal; f_equal; now apply foldl_reverse_at_filter.
Qed.

(** C10. [apply_calculus] XORs every byte with the low 8 bits of the value;
    it is its own inverse and commutes with [reverse_chunks], so that
    [reverse_chunks], then [apply_calculus], then truncation undo
    [apply_calculus] followed by [reverse_chunks]. *)
Theorem calculus_commutes_with_reversal (d : bytes) (v c : Z) (ps : list Z) :
  0 < c →
  byte_to_Z <$> apply_calculus d v
    = (λ b, Z.lxor (byte_to_Z b) (Z.land v 255)) <$> d
  ∧ apply_calculus (apply_calculus d v) v = d
  ∧ reverse_chunks (apply_calculus d v) c ps
    = (r <- reverse_chunks d c ps ;; Ok (apply_calculus r v))
  ∧ ∃ t r, reverse_chunks (apply_calculus d v) c ps = Ok t
           ∧ reverse_chunks t c ps = Ok r
           ∧ take (length d) (apply_calculus r v) = d.
Proof.
  intros Hc. split; [|split; [|split]].
  - unfold apply_calculus. rewrite <- list_fmap_compose.
    apply list_fmap_ext. intros _ b _. apply byte_xor_value.
  - apply apply_calculus_involutive.
  - apply reverse_chunks_apply_calculus.
  - destruct (reverse_chunks_twice (apply_calculus d v) c ps Hc) as (t & Ht & Hr).
    exists t, (apply_calculus d v). repeat split; try assumption.
    rewrite apply_calculus_involutive. now apply take_ge.
Qed.

(** C10 with a value above 255. *)
Lemma calculus_commutes_with_reversal_witness :
  apply_calculus (apply_calculus [x01; x02; x03] 511) 511 = [x01; x02; x03]
  ∧ ∃ t r, reverse_chunks (apply_calculus [x01; x02; x03] 511) 2 [0] = Ok t
           ∧ reverse_chunks t 2 [0] = Ok r
           ∧ take 3 (apply_calculus r 511) = [x01; x02; x03].
Proof.
  pose proof (calculus_commutes_with_reversal [x01; x02; x03] 511 2 [0]
                ltac:(lia)) as (_ & Hinv & _ & Hrt).
  exact (conj Hinv Hrt).
Defined.

(** C3, counterexample. [reverse_chunks] does not pad: for [N = 1] and
    [c = 4] its output is the one byte, not [numChunks * c = 4] bytes; and
    the padding variant returns nothing for the empty payload. *)
Lemma output_length_is_not_padded :
  ¬ (∃ r, reverse_chunks [x2a] 4 [0] = Ok r
          ∧ length r = (range_len 1 4 * 4)%nat)
  ∧ ¬ (∃ r, BH65.reverse_chunks_in_memory [] 4 [] = Some r
            ∧ length r = (range_len 0 4 * 4)%nat).
Proof.
  split.
  - intros (r & Hr & Hlen). vm_compute in Hr. injection Hr as <-.
    vm_compute in Hlen. discriminate Hlen.
  - intros (r & Hr & _). vm_compute in Hr. discriminate Hr.
Qed.

(** C3, amended. For a chunk size [c > 0], [reverse_chunks] keeps the length
    [N] of the payload (the final chunk stays short). The padding variant
    [reverse_chunks_in_memory] gives, for a non-empty payload,
    [numChunks * c] bytes with [numChunks = ceil(N / c)], the payload being
    followed by zero bytes before the listed chunks are reversed. For [N = 1]
    and [c = 4] it pads [[b]] to [[b,0,0,0]], position 0 turns that into
    [[0,0,0,b]], and reversing chunk 0 again and truncating to one byte
    recovers [[b]]. *)
Theorem transform_output_length (P : bytes) (c : Z) (ps : list Z) (b : byte) :
  0 < c →
  (∃ r, reverse_chunks P c ps = Ok r ∧ length r = length P)
  ∧ (P ≠ [] →
     ∃ r, BH65.reverse_chunks_in_memory P c ps = Some r
          ∧ length r = (range_len (length P) (Z.to_nat c) * Z.to_nat c)%nat
          ∧ ∃ z, BH65.reverse_chunks_in_memory P c [] = Some (P ++ replicate z x00))
  ∧ BH65.reverse_chunks_in_memory [b] 4 [] = Some [b; x00; x00; x00]
  ∧ BH65.reverse_chunks_in_memory [b] 4 [0] = Some [x00; x00; x00; b]
  ∧ (r <- reverse_chunks [x00; x00; x00; b] 4 [0] ;; Ok (take 1 r)) = Ok [b]
  ∧ reverse_chunks [b] 4 [0] = Ok [b].
Proof.
  intros Hc. split; [|split; [|repeat split]].
  - destruct (reverse_chunks P c ps) as [r|e] eqn:E.
    + exists r. split; [reflexivity|].
      apply reverse_chunks_length in E as [E|E]; [lia | exact E].
    + rewrite reverse_chunks_pos in E by exact Hc. discriminate E.
  - intros HP. now apply reverse_chunks_in_memory_padded.
Qed.

(** C3, amended, on a three-byte payload and chunk size 2. *)
Lemma transform_output_length_witness :
  (∃ r, reverse_chunks [x01; x02; x03] 2 [1] = Ok r ∧ length r = 3%nat)
  ∧ ∃ r, BH65.reverse_chunks_in_memory [x01; x02; x03] 2 [1] = Some r
         ∧ length r = 4%nat
         ∧ ∃ z, BH65.reverse_chunks_in_memory [x01; x02; x03] 2 []
                = Some ([x01; x02; x03] ++ replicate z x00).
Proof.
  pose proof (transform_output_length [x01; x02; x03] 2 [1] x2a ltac:(lia))
    as (H94 & H65 & _).
  split; [exact H94|]. apply H65. discriminate.
Defined.

(** C6, counterexample. The container of the empty payload with no position
    has 14 bytes; the layout with a 2-byte magic and an 8-byte size would
    have 16. *)
Lemma container_is_not_the_claimed_layout :
  ¬ ∃ magic, length magic = 2%nat
             ∧ container [] 1 [] 0 0 = Ok (claimed_layout magic [] 1 [] 0).
Proof.
  intros (magic & Hlen & H). injection H as H.
  apply (f_equal length) in H. unfold claimed_layout in H.
  rewrite length_app, Hlen in H. vm_compute in H. discriminate H.
Qed.

(** C6, amended. The container of Black_Hole_94 consists of, in order:
    [original_size],
    [chunk_size] and [calculus_value] as unsigned 32-bit big-endian
    integers, the position count as unsigned 16-bit big-endian, the positions
    as unsigned 32-bit big-endian integers, then the payload bytes. There is
    no magic. *)
Theorem container_fields (data : bytes) (c : Z) (ps : list Z) (osz cv : Z) :
  fits 4 osz → fits 4 c → fits 4 cv → Forall (fits 4) ps → len ps <= 65535 →
  ∃ f_size f_chunk f_calc f_count f_pos,
    container data c ps osz cv
      = Ok (f_size ++ f_chunk ++ f_calc ++ f_count ++ f_pos ++ data)
    ∧ (length f_size = 4%nat ∧ be_value f_size = osz)
    ∧ (length f_chunk = 4%nat ∧ be_value f_chunk = c)
    ∧ (length f_calc = 4%nat ∧ be_value f_calc = cv)
    ∧ (length f_count = 2%nat ∧ be_value f_count = len ps)
    ∧ (length f_pos = (4 * length ps)%nat
       ∧ split_fields 4 (length ps) f_pos = ps).
Proof.
  intros Ho Hc Hv Hps Hn.
  exists (be_bytes 4 osz), (be_bytes 4 c), (be_bytes 4 cv),
         (be_bytes 2 (len ps)), (flat 4 ps).
  split.
  - rewrite container_layout by assumption. unfold layout.
    rewrite !flat_cons. unfold flat at 1 2. cbn [fmap list_fmap concat].
    now rewrite !app_nil_r, <- !app_assoc.
  - rewrite !length_be_bytes, !be_value_be_bytes, length_flat, split_fields_flat;
      try assumption; [repeat split; lia|].
    unfold len in *. change (8 * Z.of_nat 2) with 16. lia.
Qed.

(** C6, amended, on a plan with one position. *)
Lemma container_fields_witness :
  ∃ f_size f_chunk f_calc f_count f_pos,
    container [xaa] 2 [0] 1 300
      = Ok (f_size ++ f_chunk ++ f_calc ++ f_count ++ f_pos ++ [xaa])
    ∧ (length f_size = 4%nat ∧ be_value f_size = 1)
    ∧ (length f_chunk = 4%nat ∧ be_value f_chunk = 2)
    ∧ (length f_calc = 4%nat ∧ be_value f_calc = 300)
    ∧ (length f_count = 2%nat ∧ be_value f_count = 1)
    ∧ (length f_pos = 4%nat ∧ split_fields 4 1 f_pos = [0]).
Proof.
  apply (container_fields [xaa] 2 [0] 1 300); try (rewrite fits_4; lia).
  - apply Forall_cons_2; [rewrite fits_4; lia | apply Forall_nil_2].
  - vm_compute. discriminate.
Defined.

End Claims.

Section SearchClaims.

Import BH94.

Variable paq_compress : bytes → result bytes.
Variable paq_decompress : bytes → result bytes.

(** The half of C4 that concerns Black_Hole_94: for a non-empty payload,
    [find_best_iteration] returns a result whatever the budget. The baseline
    (no position, the untransformed payload put in a container and passed to
    the coder) is computed before the loop, it is what a zero budget returns,
    and it is what is returned when no sampled candidate is smaller. The
    coder is one that does not fail, the sizes fit their 32-bit header fields
    and the draws are what [random] can return. *)
Theorem search_result_is_defined (rng : nat → draw) (input : bytes)
    (max_iterations c : Z) :
  (∀ x, ∃ y, paq_compress x = Ok y) →
  input ≠ [] → fits 4 (len input) → 0 < c → fits 4 c →
  (∀ i, valid_draw (len input) c (rng i)) →
  ∃ blob base q,
    container input c [] (len input) 0 = Ok blob
    ∧ paq_compress blob = Ok base
    ∧ baseline paq_compress input c = Ok (Best (len base) base q)
    ∧ ∃ data ratio,
        find_best_iteration paq_compress rng input max_iterations c
          = Ok (data, ratio)
        ∧ (max_iterations <= 0 → (data, ratio) = (base, q))
        ∧ ((∀ i z, (1 ≤ i ≤ Z.to_nat max_iterations)%nat →
                   candidate paq_compress input c (rng i) = Ok z →
                   len base <= len z) →
           (data, ratio) = (base, q)).
Proof.
  intros Htot Hne Hfn Hc Hfc Hrng.
  assert (Hblob : container input c [] (len input) 0
                  = Ok (layout input c [] (len input) 0)).
  { apply container_layout; try assumption.
    - rewrite fits_4. lia.
    - apply Forall_nil_2.
    - vm_compute. discriminate. }
  destruct (Htot (layout input c [] (len input) 0)) as [base Hbase].
  assert (Hlen : len input ≠ 0) by (destruct input; [done | unfold len; simpl; lia]).
  assert (Hb : ∃ q, baseline paq_compress input c = Ok (Best (len base) base q)).
  { unfold baseline, compress_data. rewrite Hblob. cbn [bind]. rewrite Hbase.
    cbn [bind]. unfold truediv. rewrite decide_False by exact Hlen.
    cbn [bind]. eauto. }
  destruct Hb as [q Hb]. exists (layout input c [] (len input) 0), base, q.
  split; [exact Hblob|]. split; [exact Hbase|]. split; [exact Hb|].
  unfold find_best_iteration. rewrite Hb. cbn [bind].
  set (draws := rng <$> seq 1 (Z.to_nat max_iterations)).
  assert (Hvalid : Forall (valid_draw (len input) c) draws).
  { apply Forall_fmap, Forall_forall. intros i _. apply Hrng. }
  destruct (search_loop_ok paq_compress Htot input c draws
              (Best (len base) base q) Hne Hc Hfc Hfn Hvalid)
    as (st & Hst & _ & Hsame).
  rewrite Hst. cbn [bind]. exists (best_data st), (best_ratio st).
  split; [reflexivity|]. split.
  - intros Hz. subst draws. replace (Z.to_nat max_iterations) with 0%nat in Hst by lia.
    cbn in Hst. now injection Hst as <-.
  - intros Hnone. rewrite Hsame; [reflexivity|].
    subst draws. apply Forall_fmap, Forall_forall. intros i Hi z Hz.
    apply in_seq in Hi. cbn. apply (Hnone i z); [lia | exact Hz].
Qed.

(** C5. In every run of the loop of [find_best_iteration] the best-so-far
    record changes only at a candidate whose compressed size is strictly
    smaller than the current best size (at a tie or a larger size the record
    is kept as it is), and the best sizes along the run never increase. *)
Theorem best_so_far_only_improves (input : bytes) (c : Z) (draws : list draw)
    (st0 : best) :
  StronglySorted (λ a b, best_size b <= best_size a)
    (search_trace paq_compress input c draws st0)
  ∧ ∀ i st st' d,
      search_trace paq_compress input c draws st0 !! i = Some st →
      search_trace paq_compress input c draws st0 !! S i = Some st' →
      draws !! i = Some d →
      ∃ z, candidate paq_compress input c d = Ok z
           ∧ if decide (len z < best_size st)
             then best_size st' = len z ∧ best_data st' = z
             else st' = st.
Proof.
  split; [apply search_trace_sorted|].
  intros i st st' d Hi HS Hd. apply iteration_spec.
  eapply search_trace_step; eassumption.
Qed.

(** C8, amended. In [find_best_chunk_strategy] (Black_Hole_65) a failure of
    the coder on one candidate is caught: the turn leaves the best-so-far
    record (and the file) as they were and the loop goes on with the
    remaining samples. In [find_best_iteration] (Black_Hole_94) nothing
    catches it: the failure of the coder on a candidate ends the search with
    that exception. *)
Theorem coder_failure_during_search :
  (∀ original_data st positions rest reversed blob e,
     BH65.reverse_chunks_in_memory original_data 1 positions = Some reversed →
     BH65.container reversed positions (len original_data) = Ok blob →
     paq_compress blob = Raise e →
     BH65.iteration paq_compress original_data st positions = st
     ∧ BH65.search_loop paq_compress original_data (positions :: rest) st
       = BH65.search_loop paq_compress original_data rest st)
  ∧ (∀ input c st d rest t blob e,
       0 < c →
       reverse_chunks (apply_calculus input (draw_calculus_value d)) c
         (draw_positions d) = Ok t →
       container t c (draw_positions d) (len input) (draw_calculus_value d)
         = Ok blob →
       paq_compress blob = Raise e →
       search_loop paq_compress input c (d :: rest) st = Raise e).
Proof.
  split.
  - intros original_data st positions rest reversed blob e Hrev Hblob He.
    assert (Hit : BH65.iteration paq_compress original_data st positions = st).
    { unfold BH65.iteration. cbv zeta. rewrite Z.div_1_r. case_decide; [|reflexivity].
      rewrite Hrev. destruct reversed; [reflexivity|].
      unfold BH65.compress_with_paq. rewrite Hblob. cbn [bind]. now rewrite He. }
    split; [exact Hit|]. unfold BH65.search_loop. cbn [foldl]. now rewrite Hit.
  - intros input c st d rest t blob e Hc Ht Hblob He.
    cbn [search_loop]. unfold iteration, floordiv.
    rewrite decide_False by lia. cbn [bind].
    assert (0 <= len input / c) by (apply Z.div_pos; unfold len; lia).
    rewrite decide_False by (unfold MAX_POSITIONS; lia).
    unfold candidate, compress_data. rewrite Ht. cbn [bind].
    rewrite Hblob. cbn [bind]. rewrite He. reflexivity.
Qed.

(** C9, amended. For the empty input and any chunk size [c > 0],
    [reverse_chunks] works on zero chunks and returns the empty payload, and
    [decompress_data] applied to what [compress_data] makes of the empty
    payload gives the empty output, for a coder that does not fail and whose
    [decompress] undoes its [compress]. *)
Theorem empty_input_round_trip (c : Z) (ps : list Z) :
  (∀ x, ∃ y, paq_compress x = Ok y) →
  (∀ x y, paq_compress x = Ok y → paq_decompress y = Ok x) →
  0 < c → fits 4 c →
  chunked [] c = Ok []
  ∧ reverse_chunks [] c ps = Ok []
  ∧ ∃ z, compress_data paq_compress [] c [] (len (@nil byte)) 0 = Ok z
         ∧ decompress_data paq_decompress z = Ok [].
Proof.
  intros Htot Hinv Hc Hfc.
  assert (Hch : chunked [] c = Ok []).
  { rewrite chunked_pos by exact Hc. now rewrite chunks_nil by lia. }
  assert (Hrc : ∀ qs, reverse_chunks [] c qs = Ok []).
  { intros qs. unfold reverse_chunks. rewrite Hch. cbn [bind]. f_equal.
    induction qs as [|q qs IH]; [reflexivity|]. cbn [foldl].
    rewrite reverse_at_out_of_range by (unfold len; simpl; lia). exact IH. }
  split; [exact Hch|]. split; [apply Hrc|].
  assert (Hblob : container [] c [] (len (@nil byte)) 0
                  = Ok (layout [] c [] (len (@nil byte)) 0)).
  { apply container_layout;
      first [assumption | apply Forall_nil_2 | unfold fits, len; simpl; lia]. }
  destruct (Htot (layout [] c [] (len (@nil byte)) 0)) as [z Hz].
  assert (Hcomp : compress_data paq_compress [] c [] (len (@nil byte)) 0 = Ok z).
  { unfold compress_data. rewrite Hblob. exact Hz. }
  exists z. split; [exact Hcomp|].
  apply (decompress_compress paq_compress paq_decompress [] c 0 [] [] z);
    first [assumption | apply Forall_nil_2 | apply Hrc
          | unfold fits, len; simpl; lia].
Qed.

End SearchClaims.

(** ** Runs of the claims on concrete inputs *)

(** The search of Black_Hole_94 with the storing coder and a budget of two
    iterations. *)
Lemma search_result_is_defined_witness :
  ∃ data ratio,
    BH94.find_best_iteration store_coder (λ _, BH94.Draw 1 [0])
      [x01; x02; x03] 2 2 = Ok (data, ratio).
Proof.
  destruct (search_result_is_defined store_coder (λ _, BH94.Draw 1 [0])
              [x01; x02; x03] 2 2) as (_ & _ & _ & _ & _ & _ & data & ratio & H & _).
  - intros x. exists x. reflexivity.
  - discriminate.
  - rewrite fits_4. unfold len. simpl. lia.
  - lia.
  - rewrite fits_4. lia.
  - intros _. repeat split.
    + vm_compute. discriminate.
    + vm_compute. discriminate.
    + repeat constructor.
    + apply (bool_decide_unpack _). vm_compute. exact I.
    + apply Forall_cons_2; [|apply Forall_nil_2]. vm_compute.
      split; [discriminate | reflexivity].
    + vm_compute. discriminate.
  - exists data, ratio. exact H.
Defined.

(** C5 on a turn whose candidate is smaller than the current best. *)
Lemma best_so_far_only_improves_witness :
  ∃ st' z,
    BH94.search_trace store_coder [x01; x02; x03] 2 [BH94.Draw 1 [0]]
      (BH94.Best 100 [] 0%Q) !! 1%nat = Some st'
    ∧ BH94.candidate store_coder [x01; x02; x03] 2 (BH94.Draw 1 [0]) = Ok z
    ∧ BH94.best_size st' = len z ∧ BH94.best_data st' = z.
Proof.
  eexists.
  destruct (proj2 (best_so_far_only_improves store_coder [x01; x02; x03] 2
                     [BH94.Draw 1 [0]] (BH94.Best 100 [] 0%Q))
              0%nat (BH94.Best 100 [] 0%Q) _ (BH94.Draw 1 [0])
              eq_refl eq_refl eq_refl) as (z & Hz & Hcase).
  exists z. split; [reflexivity|]. split; [exact Hz|].
  destruct (decide (len z < BH94.best_size (BH94.Best 100 [] 0%Q)))
    as [_|Hn]; [exact Hcase|].
  exfalso. apply Hn. vm_compute in Hz. injection Hz as <-. reflexivity.
Defined.

(** C8, counterexample. With a coder that fails on the first candidate only,
    the baseline is computed, the candidate fails, and [find_best_iteration]
    ends with the coder's exception although the rest of the budget would
    have run without failure. *)
Lemma coder_failure_aborts_find_best_iteration :
  ∃ st0,
    BH94.baseline picky_coder [x01] 1 = Ok st0
    ∧ BH94.candidate picky_coder [x01] 1 (BH94.Draw 1 []) = Raise PaqError
    ∧ BH94.search_loop picky_coder [x01] 1 [BH94.Draw 256 []] st0 = Ok st0
    ∧ BH94.search_loop picky_coder [x01] 1
        [BH94.Draw 1 []; BH94.Draw 256 []] st0 = Raise PaqError
    ∧ BH94.search_loop picky_coder [x01] 1
        [BH94.Draw 1 []; BH94.Draw 256 []] st0
      ≠ BH94.search_loop picky_coder [x01] 1 [BH94.Draw 256 []] st0
    ∧ BH94.find_best_iteration picky_coder
        (λ i, BH94.Draw (if decide (i = 1%nat) then 1 else 256) [])
        [x01] 2 1 = Raise PaqError.
Proof.
  eexists. split; [reflexivity|]. repeat split; try (vm_compute; reflexivity).
  vm_compute. discriminate.
Qed.

(** C8, amended, with the coder that fails on both loops' candidates. *)
Lemma coder_failure_during_search_witness :
  (BH65.iteration picky_coder [x01; x02] (BH65.State [] None None) [0; 1]
   = BH65.State [] None None
   ∧ BH65.search_loop picky_coder [x01; x02] [[0; 1]; [0; 1]]
       (BH65.State [] None None)
     = BH65.search_loop picky_coder [x01; x02] [[0; 1]]
         (BH65.State [] None None))
  ∧ BH94.search_loop picky_coder [x01] 1
      [BH94.Draw 1 []; BH94.Draw 256 []] (BH94.Best 15 [] 0%Q)
    = Raise PaqError.
Proof.
  split.
  - eapply (proj1 (coder_failure_during_search picky_coder)
              [x01; x02] _ [0; 1] [[0; 1]] _ _ PaqError).
    + reflexivity.
    + reflexivity.
    + reflexivity.
  - eapply (proj2 (coder_failure_during_search picky_coder)
              [x01] 1 _ (BH94.Draw 1 []) _ _ _ PaqError).
    + lia.
    + reflexivity.
    + reflexivity.
    + reflexivity.
Defined.

(** C9, counterexample. For the empty input [reverse_chunks] works on no
    chunk at all, not on one chunk of zeros, and [find_best_iteration] raises
    on it. *)
Lemma empty_input_has_no_chunk :
  ¬ (∃ L, BH94.chunked [] 4 = Ok L ∧ length L = 1%nat)
  ∧ BH94.reverse_chunks [] 4 [0] = Ok []
  ∧ BH94.find_best_iteration store_coder (λ _, BH94.Draw 1 []) [] 1 4
    = Raise ZeroDivisionError.
Proof.
  split; [|split; reflexivity].
  intros (L & HL & Hlen). vm_compute in HL. injection HL as <-.
  discriminate Hlen.
Qed.

(** C9, amended, with the storing coder and chunk size 4. *)
Lemma empty_input_round_trip_witness :
  BH94.chunked [] 4 = Ok []
  ∧ BH94.reverse_chunks [] 4 [0] = Ok []
  ∧ ∃ z, BH94.compress_data store_coder [] 4 [] 0 0 = Ok z
         ∧ BH94.decompress_data store_coder z = Ok [].
Proof.
  apply (empty_input_round_trip store_coder store_coder 4 [0]).
  - intros x. exists x. reflexivity.
  - intros x y H. injection H as <-. reflexivity.
  - lia.
  - rewrite fits_4. lia.
Defined.

(** * Further properties of the transform of Black_Hole_94 *)

Section TransformExtras.

Import BH94.

Lemma concat_alter_reverse_perm (L : list bytes) (i : nat) :
  concat (alter reverse i L) ≡ₚ concat L.
Proof.
  revert i. induction L as [|x L IH]; intros [|i]; cbn; try reflexivity.
  - now rewrite reverse_Permutation.
  - now rewrite IH.
Qed.

Lemma concat_foldl_reverse_at_perm (ps : list Z) (L : list bytes) :
  concat (foldl reverse_at L ps) ≡ₚ concat L.
Proof.
  revert L. induction ps as [|p ps IH]; intros L; cbn [foldl]; [reflexivity|].
  rewrite IH. unfold reverse_at. case_decide; [|reflexivity].
  apply concat_alter_reverse_perm.
Qed.

(** X1. For a positive chunk size [reverse_chunks] only moves bytes: its
    output is a permutation of the payload, of the same length. *)
Theorem reverse_chunks_permutes (d : bytes) (c : Z) (ps : list Z) :
  0 < c →
  ∃ r, reverse_chunks d c ps = Ok r ∧ r ≡ₚ d ∧ length r = length d.
Proof.
  intros Hc. rewrite reverse_chunks_pos by exact Hc. eexists.
  split; [reflexivity|].
  assert (concat (foldl reverse_at (chunks (Z.to_nat c) d) ps) ≡ₚ d) as HP.
  { rewrite concat_foldl_reverse_at_perm. now rewrite concat_chunks by lia. }
  split; [exact HP | now rewrite HP].
Qed.

(** X1 on a five-byte payload. *)
Lemma reverse_chunks_permutes_witness :
  ∃ r, reverse_chunks [x01; x02; x03; x04; x05] 2 [0; 2; 7] = Ok r
       ∧ r ≡ₚ [x01; x02; x03; x04; x05] ∧ length r = 5%nat.
Proof. apply reverse_chunks_permutes. lia. Defined.

Lemma lookup_reverse_at (L : list bytes) (p : Z) (j : nat) :
  reverse_at L p !! j
  = (if decide (Z.of_nat j = p) then reverse else id) <$> L !! j.
Proof.
  unfold reverse_at, len. destruct (decide (Z.of_nat j = p)) as [<-|Hne].
  - rewrite Nat2Z.id. case_decide as Hr.
    + apply list_lookup_alter_eq.
    + destruct (L !! j) as [x|] eqn:E; [|reflexivity].
      apply lookup_lt_Some in E. unfold bytes in *. lia.
  - case_decide as Hr.
    + rewrite list_lookup_alter_ne by lia. symmetry. apply option_fmap_id.
    + symmetry. apply option_fmap_id.
Qed.

Lemma lookup_foldl_reverse_at (ps : list Z) (L : list bytes) (j : nat) :
  NoDup ps →
  foldl reverse_at L ps !! j
  = (if decide (Z.of_nat j ∈ ps) then reverse else id) <$> L !! j.
Proof.
  intros Hnd. revert L. induction Hnd as [|p ps Hp Hnd IH]; intros L.
  - cbn. rewrite decide_False by apply not_elem_of_nil.
    symmetry. apply option_fmap_id.
  - cbn [foldl]. rewrite IH, lookup_reverse_at.
    destruct (decide (Z.of_nat j = p)) as [->|Hne].
    + rewrite decide_False by exact Hp.
      rewrite decide_True by apply list_elem_of_here. apply option_fmap_id.
    + rewrite option_fmap_id.
      destruct (decide (Z.of_nat j ∈ ps)) as [Hin|Hin].
      * rewrite decide_True by now apply list_elem_of_further. reflexivity.
      * rewrite decide_False; [reflexivity|].
        intros [?|?]%elem_of_cons; tauto.
Qed.

Lemma chunks_reverse_chunks (d r : bytes) (c : Z) (ps : list Z) :
  0 < c → reverse_chunks d c ps = Ok r →
  chunks (Z.to_nat c) r = foldl reverse_at (chunks (Z.to_nat c) d) ps.
Proof.
  intros Hc. rewrite reverse_chunks_pos by exact Hc. intros [= <-].
  apply chunks_concat; [lia|].
  eapply well_chunked_lengths; [| apply (well_chunked_chunks _ d); lia].
  symmetry. apply lengths_foldl_reverse_at.
Qed.

(** X2. For a positive chunk size and distinct positions, chunk [j] of the
    output of [reverse_chunks] is chunk [j] of the payload, reversed when [j]
    is listed and unchanged when it is not. *)
Theorem reverse_chunks_chunkwise (d r : bytes) (c : Z) (ps : list Z)
    (j : nat) (x : bytes) :
  0 < c → NoDup ps →
  reverse_chunks d c ps = Ok r →
  chunks (Z.to_nat c) d !! j = Some x →
  chunks (Z.to_nat c) r !! j
  = Some (if decide (Z.of_nat j ∈ ps) then reverse x else x).
Proof.
  intros Hc Hnd Hr Hx.
  rewrite (chunks_reverse_chunks d r c ps Hc Hr).
  pose proof (lookup_foldl_reverse_at ps (chunks (Z.to_nat c) d) j Hnd) as E.
  etrans; [exact E|].
  etrans; [exact (f_equal (fmap _) Hx)|]. cbn. now case_decide.
Qed.

(** X2 on the first chunk of a five-byte payload. *)
Lemma reverse_chunks_chunkwise_witness :
  chunks 2 [x02; x01; x03; x04; x05] !! 0%nat
  = Some (if decide (0 ∈ [0; 2]) then reverse [x01; x02] else [x01; x02]).
Proof.
  apply (reverse_chunks_chunkwise [x01; x02; x03; x04; x05]
           [x02; x01; x03; x04; x05] 2 [0; 2] 0 [x01; x02]).
  - lia.
  - apply (bool_decide_unpack _). vm_compute. exact I.
  - reflexivity.
  - reflexivity.
Defined.

Lemma foldl_reverse_at_nil (ps : list Z) : foldl reverse_at [] ps = [].
Proof.
  induction ps as [|p ps IH]; [reflexivity|]. cbn [foldl].
  now rewrite reverse_at_out_of_range by (unfold len; simpl; lia).
Qed.

(** X3. Listing the positions [ps ++ qs] is the same as running
    [reverse_chunks] with [ps] and then, on its output, with [qs] (for every
    chunk size: both sides raise for 0). *)
Theorem reverse_chunks_app (d : bytes) (c : Z) (ps qs : list Z) :
  reverse_chunks d c (ps ++ qs)
  = (t <- reverse_chunks d c ps ;; reverse_chunks t c qs).
Proof.
  destruct (decide (0 < c)) as [Hc|Hc].
  - rewrite !reverse_chunks_pos by exact Hc. cbn [bind].
    rewrite reverse_chunks_pos by exact Hc. f_equal. f_equal.
    rewrite chunks_concat; [apply foldl_app | lia |].
    eapply well_chunked_lengths; [| apply (well_chunked_chunks _ d); lia].
    symmetry. apply lengths_foldl_reverse_at.
  - unfold reverse_chunks, chunked, range_step.
    destruct (decide (c = 0)); [reflexivity|].
    destruct (decide (c < 0)); [|lia].
    cbn [bind fmap list_fmap]. now rewrite !foldl_reverse_at_nil.
Qed.

Lemma foldl_reverse_at_permutation (ps qs : list Z) :
  ps ≡ₚ qs → ∀ L, foldl reverse_at L ps = foldl reverse_at L qs.
Proof.
  induction 1 as [|p ps qs _ IH|p q ps|ps qs rs _ IH1 _ IH2]; intros L.
  - reflexivity.
  - cbn [foldl]. apply IH.
  - cbn [foldl]. now rewrite reverse_at_comm.
  - now rewrite IH1.
Qed.

(** X4. The result of [reverse_chunks] does not depend on the order in which
    the positions are listed, and a position listed twice is reversed twice,
    that is, not at all. *)
Theorem reverse_chunks_order_irrelevant (d : bytes) (c : Z) (ps qs : list Z)
    (p : Z) :
  ps ≡ₚ qs →
  reverse_chunks d c ps = reverse_chunks d c qs
  ∧ reverse_chunks d c (p :: p :: ps) = reverse_chunks d c ps.
Proof.
  intros Hperm. unfold reverse_chunks.
  destruct (chunked d c) as [L|e]; [|split; reflexivity]. cbn [bind foldl].
  split.
  - now rewrite (foldl_reverse_at_permutation ps qs Hperm).
  - now rewrite reverse_at_twice.
Qed.

(** X4 on two orders of the same positions. *)
Lemma reverse_chunks_order_irrelevant_witness :
  reverse_chunks [x01; x02; x03; x04; x05] 2 [0; 2]
  = reverse_chunks [x01; x02; x03; x04; x05] 2 [2; 0]
  ∧ reverse_chunks [x01; x02; x03; x04; x05] 2 [1; 1; 0; 2]
    = reverse_chunks [x01; x02; x03; x04; x05] 2 [0; 2].
Proof.
  apply (reverse_chunks_order_irrelevant [x01; x02; x03; x04; x05] 2
           [0; 2] [2; 0] 1).
  apply perm_swap.
Defined.

Lemma reverse_chunks_no_position (d : bytes) (c : Z) :
  0 < c → reverse_chunks d c [] = Ok d.
Proof.
  intros Hc. rewrite reverse_chunks_pos by exact Hc. cbn [foldl].
  now rewrite concat_chunks by lia.
Qed.

(** X5. With a positive chunk size and no position the payload is returned
    unchanged; when the chunk size is at least the length of a non-empty
    payload there is a single chunk, and position 0 reverses the whole
    payload. *)
Theorem reverse_chunks_single_chunk (d : bytes) (c : Z) :
  0 < c →
  reverse_chunks d c [] = Ok d
  ∧ (d ≠ [] → len d <= c → reverse_chunks d c [0] = Ok (reverse d)).
Proof.
  intros Hc. split; [now apply reverse_chunks_no_position|].
  rewrite reverse_chunks_pos by exact Hc.
  - intros Hd Hlen. unfold len in Hlen.
    rewrite chunks_cons by (lia || exact Hd).
    rewrite take_ge, drop_ge by lia. rewrite chunks_nil by lia.
    cbn [foldl]. unfold reverse_at.
    rewrite decide_True by (unfold len; simpl; lia).
    change (Z.to_nat 0) with 0%nat. simpl. now rewrite app_nil_r.
Qed.

(** X5 with a chunk size above the length of the payload. *)
Lemma reverse_chunks_single_chunk_witness :
  reverse_chunks [x01; x02; x03] 16 [] = Ok [x01; x02; x03]
  ∧ reverse_chunks [x01; x02; x03] 16 [0] = Ok (reverse [x01; x02; x03]).
Proof.
  destruct (reverse_chunks_single_chunk [x01; x02; x03] 16 ltac:(lia))
    as [Hnone Hall].
  split; [exact Hnone|]. apply Hall; [discriminate | vm_compute; discriminate].
Defined.

Lemma byte_xor_congr (b : byte) (k k' : Z) :
  k mod 256 = k' mod 256 → byte_xor b k = byte_xor b k'.
Proof.
  intros Hk. unfold byte_xor. apply byte_of_Z_congr.
  now rewrite !lxor_mod_256, Hk.
Qed.

Lemma byte_xor_xor (b : byte) (k k' : Z) :
  byte_xor (byte_xor b k) k' = byte_xor b (Z.lxor k k').
Proof.
  unfold byte_xor. rewrite byte_to_of_Z. apply byte_of_Z_congr.
  rewrite lxor_mod_256, Z.mod_mod by lia.
  rewrite <- lxor_mod_256. now rewrite Z.lxor_assoc.
Qed.

Lemma byte_xor_0 (b : byte) : byte_xor b 0 = b.
Proof. unfold byte_xor. rewrite Z.lxor_0_r. apply byte_of_to_Z. Qed.

Lemma land_255_mod (v : Z) : Z.land v 255 = v mod 256.
Proof. change 255 with (Z.ones 8). now rewrite Z.land_ones by lia. Qed.

Lemma apply_calculus_multiple_of_256 (d : bytes) (v : Z) :
  v mod 256 = 0 → apply_calculus d v = d.
Proof.
  intros H. unfold apply_calculus. rewrite <- (list_fmap_id d) at 2.
  apply list_fmap_ext. intros _ b _. rewrite land_255_mod, H. apply byte_xor_0.
Qed.

(** X6. [apply_calculus] keeps the length, uses only [calculus_value] modulo
    256 (a multiple of 256 changes nothing), and two applications amount to
    one with the XOR of the two values. *)
Theorem apply_calculus_low_byte (d : bytes) (v w : Z) :
  length (apply_calculus d v) = length d
  ∧ apply_calculus (apply_calculus d v) w = apply_calculus d (Z.lxor v w)
  ∧ (v mod 256 = w mod 256 → apply_calculus d v = apply_calculus d w)
  ∧ (v mod 256 = 0 → apply_calculus d v = d).
Proof.
  unfold apply_calculus. split; [apply length_fmap|]. split; [|split].
  - rewrite <- list_fmap_compose. apply list_fmap_ext. intros _ b _. cbn.
    rewrite byte_xor_xor. apply byte_xor_congr.
    rewrite !land_255_mod, <- lxor_mod_256. reflexivity.
  - intros H. apply list_fmap_ext. intros _ b _.
    now rewrite !land_255_mod, H.
  - intros H. now apply (apply_calculus_multiple_of_256 d v).
Qed.

(** X6 with the values 1, 257 and 256. *)
Lemma apply_calculus_low_byte_witness :
  apply_calculus [x01; x02] 1 = apply_calculus [x01; x02] 257
  ∧ apply_calculus [x01; x02] 256 = [x01; x02].
Proof.
  split.
  - apply (apply_calculus_low_byte [x01; x02] 1 257). reflexivity.
  - apply (apply_calculus_low_byte [x01; x02] 256 0). reflexivity.
Defined.

End TransformExtras.

(** * Further properties of the container of Black_Hole_94 *)

Section ContainerExtras.

Import BH94.

Lemma length_slice {A} (l : list A) (i j : nat) :
  length (slice l i j) = Nat.min (j - i) (length l - i).
Proof. unfold slice. now rewrite length_take, length_drop. Qed.

Lemma slice_slice {A} (l : list A) (i j a b : nat) :
  (a ≤ b)%nat → (i + b ≤ j)%nat →
  slice (slice l i j) a b = slice l (i + a) (i + b).
Proof.
  intros Hab Hbj. unfold slice.
  rewrite skipn_firstn_comm, take_take, drop_drop.
  f_equal. lia.
Qed.

Lemma be_value_nonneg (bs : bytes) : 0 <= be_value bs.
Proof.
  unfold be_value.
  assert (H : ∀ acc, 0 <= acc → 0 <= foldl (λ a b, a * 256 + byte_to_Z b) acc bs).
  { induction bs as [|b bs IH]; intros a Ha; [exact Ha|].
    cbn [foldl]. apply IH. pose proof (byte_to_Z_range b). lia. }
  apply H. lia.
Qed.

Lemma split_fields_3 (s : bytes) :
  split_fields 4 3 s
  = [be_value (slice s 0 4); be_value (slice s 4 8); be_value (slice s 8 12)].
Proof.
  cbn [split_fields]. unfold slice. rewrite !drop_drop. reflexivity.
Qed.

Lemma split_fields_1 (w : nat) (s : bytes) :
  split_fields w 1 s = [be_value (slice s 0 w)].
Proof. cbn [split_fields]. unfold slice. now rewrite Nat.sub_0_r. Qed.

Lemma parse_container_cases (dd : bytes) :
  parse_container dd
  = if decide (14 + Z.to_nat (be_value (slice dd 12 14)) * 4 ≤ length dd)%nat
    then Ok (header_of dd)
    else Raise StructError.
Proof.
  unfold parse_container, unpack_array.
  destruct (decide (length (slice dd 0 12) = (3 * 4)%nat)) as [H12|H12];
    rewrite length_slice in H12.
  - cbn [bind]. rewrite split_fields_3.
    rewrite !slice_slice by lia. rewrite !Nat.add_0_l.
    destruct (decide (length (slice dd 12 14) = (1 * 2)%nat)) as [H14|H14];
      rewrite length_slice in H14.
    + cbn [bind]. rewrite split_fields_1.
      replace (slice (slice dd 12 14) 0 2) with (slice dd 12 14)
        by (unfold slice at 2; rewrite Nat.sub_0_r, drop_0, take_ge;
            [reflexivity | rewrite length_slice; lia]).
      set (n := Z.to_nat (be_value (slice dd 12 14))).
      destruct (decide (length (slice dd 14 (14 + n * 4)) = (n * 4)%nat))
        as [Hp|Hp]; rewrite length_slice in Hp.
      * cbn [bind]. rewrite decide_True by lia. reflexivity.
      * cbn [bind]. rewrite decide_False by lia. reflexivity.
    + cbn [bind]. rewrite decide_False by lia. reflexivity.
  - cbn [bind]. rewrite decide_False by lia. reflexivity.
Qed.

Lemma length_split_fields (w n : nat) (bs : bytes) :
  length (split_fields w n bs) = n.
Proof.
  revert bs. induction n as [|n IH]; intros bs; [reflexivity|].
  cbn [split_fields length]. now rewrite IH.
Qed.

(** X7. [parse_container] accepts exactly the buffers that hold the 14 fixed
    header bytes and the announced number of 4-byte positions: it then reads
    the fields at their offsets, as many positions as announced, and takes
    the rest as payload. Every other buffer gives [struct.error]; nothing
    else is validated. *)
Theorem parse_container_accepts_iff (dd : bytes) :
  match parse_container dd with
  | Ok h =>
      (14 + Z.to_nat (be_value (slice dd 12 14)) * 4 ≤ length dd)%nat
      ∧ h = header_of dd
      ∧ len (positions h) = be_value (slice dd 12 14)
      ∧ length (payload h)
        = (length dd - (14 + Z.to_nat (be_value (slice dd 12 14)) * 4))%nat
  | Raise e =>
      e = StructError
      ∧ (length dd < 14 + Z.to_nat (be_value (slice dd 12 14)) * 4)%nat
  end.
Proof.
  rewrite parse_container_cases. case_decide as Hlen.
  - split; [exact Hlen|]. split; [reflexivity|].
    unfold header_of. cbn [positions payload]. split.
    + unfold len. rewrite length_split_fields.
      pose proof (be_value_nonneg (slice dd 12 14)). lia.
    + apply length_drop.
  - split; [reflexivity | lia].
Qed.

End ContainerExtras.

Section DecompressExtras.

Import BH94.

Variable paq_compress : bytes → result bytes.
Variable paq_decompress : bytes → result bytes.

Lemma pack_array_spec (w : nat) (vs : list Z) :
  match pack_array w vs with
  | Ok b => Forall (fits w) vs ∧ b = flat w vs
  | Raise e => e = StructError ∧ ¬ Forall (fits w) vs
  end.
Proof.
  induction vs as [|v vs IH]; [split; [apply Forall_nil_2 | reflexivity]|].
  cbn [pack_array]. unfold pack_uint at 1.
  destruct (decide (0 <= v < 2 ^ (8 * Z.of_nat w))) as [Hv|Hv]; cbn [bind].
  - destruct (pack_array w vs) as [b|e]; cbn [bind].
    + destruct IH as [Hvs ->]. split; [now apply Forall_cons_2 | reflexivity].
    + destruct IH as [-> Hvs]. split; [reflexivity|].
      intros [_ H]%Forall_cons_1. tauto.
  - split; [reflexivity|]. intros [H _]%Forall_cons_1. exact (Hv H).
Qed.

(** X8. [compress_data] builds a container exactly when [original_size],
    [chunk_size], [calculus_value] and every position fit 32 bits and there
    are at most 65535 positions; the container then has 14 bytes of fixed
    header, 4 bytes per position and the payload. Otherwise it raises
    [struct.error], or [ValueError] when only the count is too large. *)
Theorem container_succeeds_iff (data : bytes) (c : Z) (ps : list Z) (osz cv : Z) :
  match container data c ps osz cv with
  | Ok blob =>
      fits 4 osz ∧ fits 4 c ∧ fits 4 cv ∧ len ps <= 65535
      ∧ Forall (fits 4) ps
      ∧ length blob = (14 + 4 * length ps + length data)%nat
  | Raise e =>
      (e = StructError
       ∧ ¬ (fits 4 osz ∧ fits 4 c ∧ fits 4 cv ∧ Forall (fits 4) ps))
      ∨ (e = ValueError ∧ len ps > 65535)
  end.
Proof.
  destruct (decide (fits 4 osz)) as [Ho|Ho];
    [|unfold container; rewrite (pack_uint_overflow 4 osz Ho); left; tauto].
  destruct (decide (fits 4 c)) as [Hc|Hc];
    [|unfold container; rewrite (pack_uint_fits 4 osz Ho),
        (pack_uint_overflow 4 c Hc); left; tauto].
  destruct (decide (fits 4 cv)) as [Hv|Hv];
    [|unfold container; rewrite (pack_uint_fits 4 osz Ho),
        (pack_uint_fits 4 c Hc), (pack_uint_overflow 4 cv Hv); left; tauto].
  destruct (decide (len ps > 65535)) as [Hn|Hn].
  { unfold container. rewrite !pack_uint_fits by assumption. cbn [bind].
    rewrite decide_True by exact Hn. right. tauto. }
  pose proof (pack_array_spec 4 ps) as Hps.
  destruct (pack_array 4 ps) as [b|e] eqn:E.
  - destruct Hps as [Hps _].
    rewrite container_layout by (assumption || lia).
    repeat (split; [assumption || lia|]).
    unfold layout. rewrite !length_app, !length_flat. simpl. lia.
  - destruct Hps as [-> Hps]. unfold container.
    rewrite !pack_uint_fits by assumption. cbn [bind].
    rewrite decide_False by exact Hn.
    rewrite pack_uint_fits by (unfold fits, len in *; simpl; lia).
    cbn [bind]. rewrite E. left. tauto.
Qed.

(** X9. [decompress_data] returns a result exactly when [paq.decompress]
    succeeds, the buffer holds the fixed header and the announced positions,
    and the [chunk_size] field is not 0. The result then has
    [min(original_size, len(payload))] bytes: a payload shorter than
    [original_size] is returned as it is, without an error. In every other
    case the exception is [NameError]. *)
Theorem decompress_data_succeeds_iff (z : bytes) :
  match paq_decompress z with
  | Raise _ => decompress_data paq_decompress z = Raise NameError
  | Ok dd =>
      if decide ((14 + Z.to_nat (be_value (slice dd 12 14)) * 4 ≤ length dd)%nat
                 ∧ chunk_size (header_of dd) ≠ 0)
      then ∃ r, decompress_data paq_decompress z = Ok r
                ∧ length r = Nat.min (Z.to_nat (original_size (header_of dd)))
                               (length (payload (header_of dd)))
      else decompress_data paq_decompress z = Raise NameError
  end.
Proof.
  unfold decompress_data, decompress_body.
  destruct (paq_decompress z) as [dd|e]; [|reflexivity]. cbn [bind].
  rewrite parse_container_cases.
  destruct (decide (14 + Z.to_nat (be_value (slice dd 12 14)) * 4 ≤ length dd)%nat)
    as [Hlen|Hlen].
  - cbn [bind].
    destruct (decide (chunk_size (header_of dd) = 0)) as [H0|H0].
    + rewrite decide_False by tauto. rewrite H0. reflexivity.
    + rewrite decide_True by tauto.
      assert (0 < chunk_size (header_of dd)) as Hc.
      { pose proof (be_value_nonneg (slice dd 4 8)) as Hnn.
        change (be_value (slice dd 4 8)) with (chunk_size (header_of dd)) in Hnn.
        lia. }
      destruct (reverse_chunks_twice (payload (header_of dd))
                  (chunk_size (header_of dd)) (positions (header_of dd)) Hc)
        as (r & Hr & _).
      rewrite Hr. cbn [bind]. eexists. split; [reflexivity|].
      rewrite length_take. unfold apply_calculus. rewrite length_fmap.
      apply reverse_chunks_length in Hr as [Hr|Hr]; [lia | now rewrite Hr].
  - cbn [bind]. rewrite decide_False by tauto. reflexivity.
Qed.

(** X10. Whatever the payload, the transform parameters and the coder, what
    [compress_data] produces after [apply_calculus] and [reverse_chunks] is
    turned back into the payload by [decompress_data], provided the fields
    fit the header and [paq.decompress] undoes [paq.compress]. *)
Theorem decompress_after_compress (d : bytes) (c v : Z) (ps : list Z) :
  (∀ x, ∃ y, paq_compress x = Ok y) →
  (∀ x y, paq_compress x = Ok y → paq_decompress y = Ok x) →
  0 < c → fits 4 c → fits 4 (len d) → fits 4 v →
  Forall (fits 4) ps → len ps <= 65535 →
  ∃ t z, reverse_chunks (apply_calculus d v) c ps = Ok t
         ∧ compress_data paq_compress t c ps (len d) v = Ok z
         ∧ decompress_data paq_decompress z = Ok d.
Proof.
  intros Htot Hinv Hc Hfc Hfd Hfv Hps Hn.
  destruct (reverse_chunks_twice (apply_calculus d v) c ps Hc) as (t & Ht & _).
  destruct (Htot (layout t c ps (len d) v)) as [z Hz].
  assert (compress_data paq_compress t c ps (len d) v = Ok z) as Hcomp.
  { unfold compress_data. rewrite container_layout by assumption. exact Hz. }
  exists t, z. split; [exact Ht|]. split; [exact Hcomp|].
  eapply decompress_compress; eassumption.
Qed.

(** X11. [compress_data] accepts a chunk size of 0, but [decompress_data]
    rejects every container it builds with it: [range] raises on the zero
    step. *)
Theorem zero_chunk_size_not_restorable (data : bytes) (ps : list Z) (osz cv : Z) :
  (∀ x, ∃ y, paq_compress x = Ok y) →
  (∀ x y, paq_compress x = Ok y → paq_decompress y = Ok x) →
  fits 4 osz → fits 4 cv → Forall (fits 4) ps → len ps <= 65535 →
  ∃ z, compress_data paq_compress data 0 ps osz cv = Ok z
       ∧ decompress_data paq_decompress z = Raise NameError.
Proof.
  intros Htot Hinv Ho Hv Hps Hn.
  assert (fits 4 0) as H0 by (rewrite fits_4; lia).
  destruct (Htot (layout data 0 ps osz cv)) as [z Hz]. exists z.
  unfold compress_data. rewrite container_layout by assumption. cbn [bind].
  split; [exact Hz|].
  unfold decompress_data, decompress_body. rewrite (Hinv _ _ Hz). cbn [bind].
  rewrite parse_layout by assumption. reflexivity.
Qed.

End DecompressExtras.

(** X10 with the storing coder. *)
Lemma decompress_after_compress_witness :
  ∃ t z, BH94.reverse_chunks (BH94.apply_calculus [x01; x02; x03] 300) 2 [1; 0]
         = Ok t
         ∧ BH94.compress_data store_coder t 2 [1; 0] 3 300 = Ok z
         ∧ BH94.decompress_data store_coder z = Ok [x01; x02; x03].
Proof.
  apply (decompress_after_compress store_coder store_coder [x01; x02; x03] 2 300
           [1; 0]).
  - intros x. exists x. reflexivity.
  - intros x y H. injection H as <-. reflexivity.
  - lia.
  - rewrite fits_4. lia.
  - rewrite fits_4. unfold len. simpl. lia.
  - rewrite fits_4. lia.
  - repeat (apply Forall_cons_2; [rewrite fits_4; lia|]). apply Forall_nil_2.
  - vm_compute. discriminate.
Defined.

(** X11 with the storing coder. *)
Lemma zero_chunk_size_not_restorable_witness :
  ∃ z, BH94.compress_data store_coder [x01; x02; x03] 0 [] 3 0 = Ok z
       ∧ BH94.decompress_data store_coder z = Raise NameError.
Proof.
  apply (zero_chunk_size_not_restorable store_coder store_coder).
  - intros x. exists x. reflexivity.
  - intros x y H. injection H as <-. reflexivity.
  - rewrite fits_4. lia.
  - rewrite fits_4. lia.
  - apply Forall_nil_2.
  - vm_compute. discriminate.
Defined.

(** * Further properties of the search of Black_Hole_94 *)

Section SearchExtras.

Import BH94.

Variable paq_compress : bytes → result bytes.
Variable paq_decompress : bytes → result bytes.

Hypothesis paq_inverse :
  ∀ x y, paq_compress x = Ok y → paq_decompress y = Ok x.

Lemma search_runs (rng : nat → draw) (input : bytes) (max_iterations c : Z) :
  (∀ x, ∃ y, paq_compress x = Ok y) →
  input ≠ [] → fits 4 (len input) → 0 < c → fits 4 c →
  (∀ i, valid_draw (len input) c (rng i)) →
  ∃ st0 st,
    baseline paq_compress input c = Ok st0
    ∧ search_loop paq_compress input c
        (rng <$> seq 1 (Z.to_nat max_iterations)) st0 = Ok st
    ∧ best_size st <= best_size st0.
Proof.
  intros Htot Hne Hfn Hc Hfc Hrng.
  destruct (Htot (layout input c [] (len input) 0)) as [base Hbase].
  assert (baseline paq_compress input c
          = Ok (Best (len base) base
                  (Qmake (len base * Z.sgn (len input))
                     (Z.to_pos (Z.abs (len input)))))) as Hb.
  { unfold baseline, compress_data.
    rewrite container_layout
      by first [assumption | apply Forall_nil_2 | rewrite fits_4; lia
               | vm_compute; discriminate].
    cbn [bind]. rewrite Hbase. cbn [bind]. unfold truediv.
    rewrite decide_False; [reflexivity|].
    destruct input; [done | unfold len; simpl; lia]. }
  eexists. rewrite Hb.
  edestruct (search_loop_ok paq_compress Htot input c
               (rng <$> seq 1 (Z.to_nat max_iterations)))
    as (st & Hst & Hle & _); try eassumption.
  { apply Forall_fmap, Forall_forall. intros i _. apply Hrng. }
  exists st. split; [reflexivity|]. split; [exact Hst | exact Hle].
Qed.

Lemma candidate_restorable (input : bytes) (c : Z) (d : draw) (z : bytes) :
  0 < c → fits 4 c → fits 4 (len input) → valid_draw (len input) c d →
  candidate paq_compress input c d = Ok z →
  decompress_data paq_decompress z = Ok input.
Proof.
  intros Hc Hfc Hfn Hd Hz.
  destruct (valid_draw_fits _ _ _ Hc Hfn Hd) as (Hv & Hps & Hlen).
  unfold candidate in Hz.
  destruct (reverse_chunks (apply_calculus input (draw_calculus_value d)) c
              (draw_positions d)) as [t|e] eqn:Ht; [|discriminate Hz].
  cbn [bind] in Hz.
  eapply (decompress_compress paq_compress paq_decompress input c
            (draw_calculus_value d) (draw_positions d) t z); eassumption.
Qed.

Lemma iteration_restorable (input : bytes) (c : Z) (st st' : best) (d : draw) :
  0 < c → fits 4 c → fits 4 (len input) → valid_draw (len input) c d →
  restorable paq_decompress input st →
  iteration paq_compress input c st d = Ok st' →
  restorable paq_decompress input st'.
Proof.
  intros Hc Hfc Hfn Hd Hst Hit.
  apply iteration_spec in Hit as (z & Hz & Hcase).
  destruct (decide (len z < best_size st)); [|now subst].
  destruct Hcase as [Hsize Hdata]. split.
  - rewrite Hdata. eapply candidate_restorable; eassumption.
  - now rewrite Hsize, Hdata.
Qed.

Lemma search_loop_restorable (input : bytes) (c : Z) (draws : list draw)
    (st st' : best) :
  0 < c → fits 4 c → fits 4 (len input) →
  Forall (valid_draw (len input) c) draws →
  restorable paq_decompress input st →
  search_loop paq_compress input c draws st = Ok st' →
  restorable paq_decompress input st'.
Proof.
  intros Hc Hfc Hfn Hds. revert st.
  induction Hds as [|d draws Hd _ IH]; intros st Hst Hloop.
  - cbn in Hloop. now injection Hloop as <-.
  - cbn [search_loop] in Hloop.
    destruct (iteration paq_compress input c st d) as [s|e] eqn:E;
      [|discriminate Hloop].
    cbn [bind] in Hloop. eapply IH; [|exact Hloop].
    eapply iteration_restorable; eassumption.
Qed.

Lemma baseline_restorable (input : bytes) (c : Z) (st : best) :
  0 < c → fits 4 c → fits 4 (len input) →
  baseline paq_compress input c = Ok st →
  restorable paq_decompress input st
  ∧ compress_data paq_compress input c [] (len input) 0 = Ok (best_data st).
Proof.
  intros Hc Hfc Hfn Hb. unfold baseline in Hb.
  destruct (compress_data paq_compress input c [] (len input) 0) as [z|e] eqn:Hz;
    [|discriminate Hb].
  cbn [bind] in Hb.
  destruct (truediv (len z) (len input)) as [q|e]; [|discriminate Hb].
  cbn [bind] in Hb. injection Hb as <-. cbn [best_data best_size].
  split; [|reflexivity]. split; [|reflexivity].
  apply (decompress_compress paq_compress paq_decompress input c 0 [] input z);
    first [assumption | apply Forall_nil_2 | rewrite fits_4; lia
          | vm_compute; discriminate | idtac].
  rewrite (apply_calculus_multiple_of_256 input 0 eq_refl).
  now apply reverse_chunks_no_position.
Qed.

(** X12. Whatever the draws, the blob returned by [find_best_iteration] is
    restored to the input by [decompress_data], and it is not longer than
    the baseline blob. *)
Theorem search_result_restores_input (rng : nat → draw) (input : bytes)
    (max_iterations c : Z) :
  (∀ x, ∃ y, paq_compress x = Ok y) →
  input ≠ [] → fits 4 (len input) → 0 < c → fits 4 c →
  (∀ i, valid_draw (len input) c (rng i)) →
  ∃ data ratio base,
    find_best_iteration paq_compress rng input max_iterations c
      = Ok (data, ratio)
    ∧ decompress_data paq_decompress data = Ok input
    ∧ compress_data paq_compress input c [] (len input) 0 = Ok base
    ∧ len data <= len base.
Proof.
  intros Htot Hne Hfn Hc Hfc Hrng.
  destruct (search_runs rng input max_iterations c Htot Hne Hfn Hc Hfc Hrng)
    as (st0 & st & Hb & Hloop & Hle).
  destruct (baseline_restorable input c st0 Hc Hfc Hfn Hb) as [Hst0 Hbase].
  assert (restorable paq_decompress input st) as [Hdec Hsize].
  { eapply search_loop_restorable; [exact Hc | exact Hfc | exact Hfn | |
                                     exact Hst0 | exact Hloop].
    apply Forall_fmap, Forall_forall. intros i _. apply Hrng. }
  exists (best_data st), (best_ratio st), (best_data st0).
  unfold find_best_iteration. rewrite Hb. cbn [bind]. rewrite Hloop. cbn [bind].
  split; [reflexivity|]. split; [exact Hdec|]. split; [exact Hbase|].
  destruct Hst0 as [_ Hsize0]. lia.
Qed.

End SearchExtras.

Section SearchEdgeExtras.

Import BH94.

Variable paq_compress : bytes → result bytes.

Lemma two_pow_32_does_not_fit : ¬ fits 4 (2 ^ 32).
Proof. rewrite fits_4. lia. Qed.

(** X13. Among the chunk sizes [main] offers, those of the answers 1 to 4
    fit the 32-bit header field; the one of answer 5 is [2**32], which does
    not: with it [find_best_iteration] raises [struct.error] for every
    payload, coder and budget. *)
Theorem menu_chunk_size_5_overflows (n c : Z) (rng : nat → draw)
    (input : bytes) (max_iterations : Z) :
  BH94IO.chunk_size_choice n = Some c →
  if decide (n = 5)
  then find_best_iteration paq_compress rng input max_iterations c
       = Raise StructError
  else 0 < c ∧ fits 4 c.
Proof.
  unfold BH94IO.chunk_size_choice. case_decide as Hn; [|discriminate].
  intros [= <-].
  assert (n = 1 ∨ n = 2 ∨ n = 3 ∨ n = 4 ∨ n = 5) as Hcases by lia.
  destruct Hcases as [->|[->|[->|[->| ->]]]];
    try (rewrite decide_False by lia; rewrite fits_4; vm_compute;
         repeat split; discriminate).
  rewrite decide_True by reflexivity.
  change (2 ^ 2 ^ 5) with (2 ^ 32).
  unfold find_best_iteration, baseline, compress_data, container.
  unfold pack_uint at 1. case_decide; cbn [bind]; [|reflexivity].
  now rewrite (pack_uint_overflow 4 (2 ^ 32) two_pow_32_does_not_fit).
Qed.

(** X14. [find_best_iteration] never returns a result for the empty
    payload: when the baseline can be built it divides by the length 0 and
    raises [ZeroDivisionError], whatever the budget. *)
Theorem empty_payload_always_raises (rng : nat → draw) (max_iterations c : Z) :
  (∃ e, find_best_iteration paq_compress rng [] max_iterations c = Raise e)
  ∧ ((∀ x, ∃ y, paq_compress x = Ok y) → fits 4 c →
     find_best_iteration paq_compress rng [] max_iterations c
     = Raise ZeroDivisionError).
Proof.
  unfold find_best_iteration, baseline. split.
  - destruct (compress_data paq_compress [] c [] (len (@nil byte)) 0) as [z|e];
      cbn [bind]; eauto.
  - intros Htot Hc. unfold compress_data.
    rewrite container_layout
      by first [assumption | apply Forall_nil_2 | unfold fits, len; simpl; lia].
    cbn [bind]. destruct (Htot (layout [] c [] (len (@nil byte)) 0)) as [z ->].
    reflexivity.
Qed.

End SearchEdgeExtras.

(** X12 with the storing coder. *)
Lemma search_result_restores_input_witness :
  ∃ data ratio base,
    BH94.find_best_iteration store_coder (λ _, BH94.Draw 1 [0])
      [x01; x02; x03] 2 2 = Ok (data, ratio)
    ∧ BH94.decompress_data store_coder data = Ok [x01; x02; x03]
    ∧ BH94.compress_data store_coder [x01; x02; x03] 2 [] 3 0 = Ok base
    ∧ len data <= len base.
Proof.
  apply (search_result_restores_input store_coder store_coder).
  - intros x y H. injection H as <-. reflexivity.
  - intros x. exists x. reflexivity.
  - discriminate.
  - rewrite fits_4. unfold len. simpl. lia.
  - lia.
  - rewrite fits_4. lia.
  - intros _. repeat split.
    + vm_compute. discriminate.
    + vm_compute. discriminate.
    + repeat constructor.
    + apply (bool_decide_unpack _). vm_compute. exact I.
    + apply Forall_cons_2; [|apply Forall_nil_2]. vm_compute.
      split; [discriminate | reflexivity].
    + vm_compute. discriminate.
Defined.

(** X13 for the answers 5 and 3. *)
Lemma menu_chunk_size_5_overflows_witness :
  BH94.find_best_iteration store_coder (λ _, BH94.Draw 1 []) [x01] 1 (2 ^ 2 ^ 5)
  = Raise StructError
  ∧ (0 < 2 ^ 2 ^ 3 ∧ fits 4 (2 ^ 2 ^ 3)).
Proof.
  split.
  - apply (menu_chunk_size_5_overflows store_coder 5 (2 ^ 2 ^ 5)
             (λ _, BH94.Draw 1 []) [x01] 1 eq_refl).
  - apply (menu_chunk_size_5_overflows store_coder 3 (2 ^ 2 ^ 3)
             (λ _, BH94.Draw 1 []) [x01] 1 eq_refl).
Defined.

(** X14 with the storing coder. *)
Lemma empty_payload_always_raises_witness :
  BH94.find_best_iteration store_coder (λ _, BH94.Draw 1 []) [] 3 4
  = Raise ZeroDivisionError.
Proof.
  apply (empty_payload_always_raises store_coder).
  - intros x. exists x. reflexivity.
  - rewrite fits_4. lia.
Defined.

(** * Properties of [process_large_file] of Black_Hole_94 *)

Section FileExtras.

Import stdpp.strings stdpp.gmap.
Import BH94 BH94IO.
Local Open Scope Z_scope.

Variable paq_compress : bytes → result bytes.
Variable paq_decompress : bytes → result bytes.

Lemma candidate_is_coder_output (input : bytes) (c : Z) (d : draw) (z : bytes) :
  candidate paq_compress input c d = Ok z → ∃ x, paq_compress x = Ok z.
Proof.
  unfold candidate, compress_data.
  destruct (reverse_chunks _ _ _) as [t|e]; [|discriminate]. cbn [bind].
  destruct (container _ _ _ _ _) as [x|e]; [|discriminate]. cbn [bind]. eauto.
Qed.

Lemma search_loop_coder_output (input : bytes) (c : Z) (draws : list draw)
    (st st' : best) :
  (∃ x, paq_compress x = Ok (best_data st)) →
  search_loop paq_compress input c draws st = Ok st' →
  ∃ x, paq_compress x = Ok (best_data st').
Proof.
  revert st. induction draws as [|d draws IH]; intros st Hst Hloop.
  - cbn in Hloop. now injection Hloop as <-.
  - cbn [search_loop] in Hloop.
    destruct (iteration paq_compress input c st d) as [s|e] eqn:E;
      [|discriminate Hloop].
    cbn [bind] in Hloop. apply (IH s); [|exact Hloop].
    apply iteration_spec in E as (z & Hz & Hcase).
    destruct (decide (len z < best_size st)); [|now subst].
    destruct Hcase as [_ ->]. eapply candidate_is_coder_output, Hz.
Qed.

(** X15. Compressing an existing, non-empty file to [b] and then
    decompressing [b] to [out] leaves in [out] the content of the file, for
    a coder that does not fail, never returns an empty output and whose
    [decompress] undoes its [compress]. *)
Theorem compress_then_decompress_files (rng rng' : nat → draw)
    (files : gmap string bytes) (a b out : string) (data : bytes)
    (n n' c : Z) (cs' : option Z) :
  (∀ x, ∃ y, paq_compress x = Ok y) →
  (∀ x y, paq_compress x = Ok y → paq_decompress y = Ok x) →
  (∀ x y, paq_compress x = Ok y → y ≠ []) →
  files !! a = Some data →
  data ≠ [] → fits 4 (len data) → 0 < c → fits 4 c →
  (∀ i, valid_draw (len data) c (rng i)) →
  ∃ blob,
    process_large_file paq_compress paq_decompress rng files a b "compress"
      n (Some c) = Returns (<[b := blob]> files)
    ∧ process_large_file paq_compress paq_decompress rng' (<[b := blob]> files)
        b out "decompress" n' cs'
      = Returns (<[out := data]> (<[b := blob]> files)).
Proof.
  intros Htot Hinv Hne Ha Hd Hfn Hc Hfc Hrng.
  destruct (search_runs paq_compress rng data n c Htot Hd Hfn Hc Hfc Hrng)
    as (st0 & st & Hb & Hloop & _).
  destruct (baseline_restorable paq_compress paq_decompress Hinv data c st0
              Hc Hfc Hfn Hb) as [Hst0 Hbase].
  assert (restorable paq_decompress data st) as [Hdec _].
  { eapply (search_loop_restorable paq_compress paq_decompress Hinv);
      [exact Hc | exact Hfc | exact Hfn | | exact Hst0 | exact Hloop].
    apply Forall_fmap, Forall_forall. intros i _. apply Hrng. }
  assert (best_data st ≠ []) as Hblob.
  { destruct (search_loop_coder_output data c
                (rng <$> seq 1 (Z.to_nat n)) st0 st) as [x Hx];
      [|exact Hloop|exact (Hne _ _ Hx)].
    unfold compress_data in Hbase.
    destruct (container data c [] (len data) 0) as [x|e]; [|discriminate].
    exists x. exact Hbase. }
  exists (best_data st). split.
  - unfold process_large_file. rewrite Ha. rewrite decide_True by reflexivity.
    unfold find_best_iteration. rewrite Hb. cbn [bind]. rewrite Hloop.
    cbn [bind]. destruct (best_data st); [done | reflexivity].
  - unfold process_large_file. rewrite lookup_insert_eq.
    rewrite decide_False by discriminate. rewrite decide_True by reflexivity.
    now rewrite Hdec.
Qed.

(** X16. How [process_large_file] fails: a missing input file raises
    [FileNotFoundError] in every mode; in decompress mode a file that
    decodes to fewer than the 14 header bytes is reported and no output is
    written, without an exception; in compress mode an empty input file makes
    the call raise, and no output is written. *)
Theorem process_large_file_failures (rng : nat → draw)
    (files : gmap string bytes) (a b mode : string) (n : Z) (cs : option Z) :
  (files !! a = None →
   process_large_file paq_compress paq_decompress rng files a b mode n cs
   = FileNotFound)
  ∧ (∀ data dd,
       files !! a = Some data → paq_decompress data = Ok dd →
       (length dd < 14)%nat →
       process_large_file paq_compress paq_decompress rng files a b
         "decompress" n cs = Returns files)
  ∧ (files !! a = Some ([] : bytes) →
     ∃ e, process_large_file paq_compress paq_decompress rng files a b
            "compress" n cs = Raises e).
Proof.
  split; [|split].
  - intros Ha. unfold process_large_file. now rewrite Ha.
  - intros data dd Ha Hdd Hlen. unfold process_large_file. rewrite Ha.
    rewrite decide_False by discriminate. rewrite decide_True by reflexivity.
    unfold decompress_data, decompress_body. rewrite Hdd. cbn [bind].
    rewrite parse_container_cases. rewrite decide_False by lia. reflexivity.
  - intros Ha. unfold process_large_file. rewrite Ha.
    rewrite decide_True by reflexivity. destruct cs as [c|]; [|eauto].
    unfold find_best_iteration, baseline.
    destruct (compress_data paq_compress [] c [] (len (@nil byte)) 0) as [z|e];
      cbn [bind]; eauto.
Qed.

End FileExtras.

Section FileRuns.

Import stdpp.strings stdpp.gmap.
Local Open Scope Z_scope.

(** X15 with the tagging coder. *)
Lemma compress_then_decompress_files_witness :
  ∃ blob,
    BH94IO.process_large_file tag_coder untag_coder (λ _, BH94.Draw 1 [0])
      {["a" := [x01; x02; x03]]} "a" "b" "compress" 2 (Some 2)
    = BH94IO.Returns (<["b" := blob]> {["a" := [x01; x02; x03]]})
    ∧ BH94IO.process_large_file tag_coder untag_coder (λ _, BH94.Draw 1 [0])
        (<["b" := blob]> {["a" := [x01; x02; x03]]}) "b" "c" "decompress" 0 None
      = BH94IO.Returns (<["c" := [x01; x02; x03]]>
                          (<["b" := blob]> {["a" := [x01; x02; x03]]})).
Proof.
  apply (compress_then_decompress_files tag_coder untag_coder).
  - intros x. eexists. reflexivity.
  - intros x y H. injection H as <-. reflexivity.
  - intros x y H. injection H as <-. discriminate.
  - reflexivity.
  - discriminate.
  - rewrite fits_4. unfold len. simpl. lia.
  - lia.
  - rewrite fits_4. lia.
  - intros _. repeat split.
    + vm_compute. discriminate.
    + vm_compute. discriminate.
    + repeat constructor.
    + apply (bool_decide_unpack _). vm_compute. exact I.
    + apply Forall_cons_2; [|apply Forall_nil_2]. vm_compute.
      split; [discriminate | reflexivity].
    + vm_compute. discriminate.
Defined.

(** X16 on a missing file, a two-byte file and an empty file. *)
Lemma process_large_file_failures_witness :
  BH94IO.process_large_file store_coder store_coder (λ _, BH94.Draw 1 [])
    {["a" := [x01; x02]]} "z" "b" "compress" 1 (Some 4) = BH94IO.FileNotFound
  ∧ BH94IO.process_large_file store_coder store_coder (λ _, BH94.Draw 1 [])
      {["a" := [x01; x02]]} "a" "b" "decompress" 1 None
    = BH94IO.Returns {["a" := [x01; x02]]}
  ∧ ∃ e, BH94IO.process_large_file store_coder store_coder (λ _, BH94.Draw 1 [])
           {["a" := []]} "a" "b" "compress" 1 (Some 4) = BH94IO.Raises e.
Proof.
  split; [|split].
  - apply (proj1 (process_large_file_failures store_coder store_coder
                    (λ _, BH94.Draw 1 []) {["a" := [x01; x02]]}
                    "z" "b" "compress" 1 (Some 4))).
    vm_compute. reflexivity.
  - apply (proj1 (proj2 (process_large_file_failures store_coder store_coder
                           (λ _, BH94.Draw 1 []) {["a" := [x01; x02]]}
                           "a" "b" "decompress" 1 None))
             [x01; x02] [x01; x02]).
    + vm_compute. reflexivity.
    + reflexivity.
    + simpl. lia.
  - apply (proj2 (proj2 (process_large_file_failures store_coder store_coder
                           (λ _, BH94.Draw 1 []) {["a" := []]}
                           "a" "b" "compress" 1 (Some 4)))).
    vm_compute. reflexivity.
Defined.

End FileRuns.

(** * Further properties of Black_Hole_65 *)

Section PaddingExtras.

Import BH65.

Lemma full_well_chunked (k : nat) (L : list bytes) :
  (0 < k)%nat → Forall (λ x, length x = k) L → well_chunked k L.
Proof.
  intros Hk. induction 1 as [|x L Hx HL IH]; [exact I|].
  destruct L as [|y L]; cbn; [lia | split; assumption].
Qed.

Lemma well_chunked_1_full (L : list bytes) :
  well_chunked 1 L → Forall (λ x, length x = 1%nat) L.
Proof.
  induction L as [|x L IH]; intros HL; [apply Forall_nil_2|].
  destruct L as [|y L].
  - cbn in HL. apply Forall_cons_2; [lia | apply Forall_nil_2].
  - destruct HL as [Hx HL]. apply Forall_cons_2; [exact Hx | now apply IH].
Qed.

Lemma alter_reverse_singletons (L : list bytes) (i : nat) :
  Forall (λ x, length x = 1%nat) L → alter reverse i L = L.
Proof.
  intros HL. revert i. induction HL as [|x L Hx _ IH]; intros [|i]; cbn;
    try reflexivity.
  - f_equal. destruct x as [|a [|b x]]; try discriminate Hx. reflexivity.
  - f_equal. apply IH.
Qed.

Lemma foldl_reverse_at_singletons (ps : list Z) (L : list bytes) :
  Forall (λ x, length x = 1%nat) L → foldl BH94.reverse_at L ps = L.
Proof.
  intros HL. induction ps as [|p ps IH]; [reflexivity|]. cbn [foldl].
  unfold BH94.reverse_at at 2. case_decide; [|exact IH].
  now rewrite alter_reverse_singletons.
Qed.

Lemma last_full_not_padded (c : Z) (L : list bytes) (t : bytes) :
  Forall (λ x, length x = Z.to_nat c) L → list.last L = Some t →
  padded c L t = L.
Proof.
  intros HL Ht. unfold padded. case_decide as Hlt; [|reflexivity].
  apply last_Some in Ht as [L' ->].
  apply Forall_app in HL as [_ HL]. apply Forall_cons_1 in HL as [Hlen _].
  unfold len in Hlt. lia.
Qed.

Lemma length_foldl_reverse_at (ps : list Z) (L : list bytes) :
  length (foldl BH94.reverse_at L ps) = length L.
Proof.
  revert L. induction ps as [|p ps IH]; intros L; [reflexivity|].
  cbn [foldl]. now rewrite IH, length_reverse_at.
Qed.

Lemma full_lengths (k : nat) (L L' : list bytes) :
  length <$> L = length <$> L' →
  Forall (λ x, length x = k) L' → Forall (λ x, length x = k) L.
Proof.
  intros E HL'. revert L E.
  induction HL' as [|y L' Hy _ IH]; intros [|x L] E; try discriminate E.
  - apply Forall_nil_2.
  - injection E as Ex E. apply Forall_cons_2; [lia | now apply IH].
Qed.

Lemma reverse_chunks_in_memory_chunk_1 (d : bytes) (ps : list Z) :
  d ≠ [] → reverse_chunks_in_memory d 1 ps = Some d.
Proof.
  intros Hd.
  destruct (chunks_last 1 d ltac:(lia) Hd) as [t Ht].
  unfold reverse_chunks_in_memory.
  rewrite (reverse_chunks_body_pos d 1 ps t ltac:(lia) Ht).
  assert (Forall (λ x, length x = 1%nat) (chunks 1 d)) as Hfull
    by (apply well_chunked_1_full, well_chunked_chunks; lia).
  change (Z.to_nat 1) with 1%nat.
  rewrite (last_full_not_padded 1 _ t Hfull Ht).
  rewrite foldl_reverse_at_singletons by exact Hfull.
  now rewrite concat_chunks by lia.
Qed.

(** X17. [find_best_chunk_strategy] fixes the chunk size to 1, and reversing
    a one-byte chunk changes nothing: for every non-empty file and every
    sample of positions the "reversed" data is the file itself. A turn on
    which the coder succeeds therefore writes the compressed header followed
    by the unchanged file, whether or not the ratio improves, and a turn on
    which it fails leaves the file on disk as it was. *)
Theorem chunk_size_1_changes_nothing (paq_compress : bytes → result bytes)
    (d : bytes) (ps : list Z) (st : state) :
  d ≠ [] →
  reverse_chunks_in_memory d 1 ps = Some d
  ∧ compressed_file (iteration paq_compress d st ps)
    = match (c <- container d ps (len d) ;; paq_compress c) with
      | Ok z => Some z
      | Raise _ => compressed_file st
      end.
Proof.
  intros Hd. split; [now apply reverse_chunks_in_memory_chunk_1|].
  unfold iteration. cbv zeta. rewrite Z.div_1_r.
  rewrite decide_True by (destruct d; [done | unfold len; simpl; lia]).
  rewrite reverse_chunks_in_memory_chunk_1 by exact Hd.
  destruct d as [|b d]; [done|]. unfold compress_with_paq.
  destruct (c <- container (b :: d) ps (len (b :: d)) ;; paq_compress c)
    as [z|e]; [|reflexivity].
  unfold truediv. rewrite decide_False by (unfold len; simpl; lia).
  now destruct (ratio_improves _ _).
Qed.

(** X17 on a three-byte file. *)
Lemma chunk_size_1_changes_nothing_witness :
  reverse_chunks_in_memory [x01; x02; x03] 1 [0; 2] = Some [x01; x02; x03].
Proof.
  apply (chunk_size_1_changes_nothing store_coder [x01; x02; x03] [0; 2]
           (State [] None None)).
  discriminate.
Defined.

(** X18. With the padding of [reverse_chunks_in_memory], reversing the same
    chunks of its output again gives the payload followed by the padding
    zeros: truncating to the original length recovers the payload, for every
    non-empty payload, chunk size above 0 and positions. *)
Theorem padded_reversal_round_trip (d : bytes) (c : Z) (ps : list Z) :
  d ≠ [] → 0 < c →
  ∃ t r z, reverse_chunks_in_memory d c ps = Some t
           ∧ reverse_chunks_in_memory t c ps = Some r
           ∧ r = d ++ replicate z x00
           ∧ take (length d) r = d.
Proof.
  intros Hd Hc.
  destruct (chunks_last (Z.to_nat c) d ltac:(lia) Hd) as [t0 Ht0].
  set (P := padded c (chunks (Z.to_nat c) d) t0).
  assert (Forall (λ x, length x = Z.to_nat c) P) as HP.
  { apply padded_full; [exact Hc | apply well_chunked_chunks; lia | exact Ht0]. }
  assert (∀ L : list bytes, length <$> L = length <$> P →
               Forall (λ x, length x = Z.to_nat c) L) as Hfull
    by (intros L HL; now apply (full_lengths _ L P)).
  set (Q := foldl BH94.reverse_at P ps).
  assert (Forall (λ x, length x = Z.to_nat c) Q) as HQ
    by apply Hfull, lengths_foldl_reverse_at.
  assert (chunks (Z.to_nat c) (concat Q) = Q) as Hch
    by (apply chunks_concat; [lia | apply full_well_chunked; [lia | exact HQ]]).
  assert (∃ q, list.last Q = Some q) as [q Hq].
  { apply last_is_Some. intros HQnil.
    assert (length Q = 0%nat) as Hlen by now rewrite HQnil.
    unfold Q in Hlen.
    rewrite length_foldl_reverse_at in Hlen. unfold P in Hlen. rewrite length_padded in Hlen.
    apply length_zero_iff_nil in Hlen. rewrite Hlen in Ht0. discriminate Ht0. }
  destruct (concat_padded c (chunks (Z.to_nat c) d) t0 Ht0) as [z Hz].
  exists (concat Q), (concat P), z.
  unfold reverse_chunks_in_memory.
  rewrite (reverse_chunks_body_pos d c ps t0 Hc Ht0). fold P. fold Q.
  split; [reflexivity|].
  rewrite <- Hch in Hq.
  rewrite (reverse_chunks_body_pos (concat Q) c ps q Hc Hq).
  rewrite Hch in Hq |- *.
  rewrite (last_full_not_padded c Q q HQ Hq).
  unfold Q. rewrite foldl_reverse_at_twice.
  split; [reflexivity|].
  unfold P. rewrite Hz, concat_chunks by lia.
  split; [reflexivity | apply take_app_length].
Qed.

(** X18 on a five-byte payload with chunk size 2. *)
Lemma padded_reversal_round_trip_witness :
  ∃ t r z, reverse_chunks_in_memory [x01; x02; x03; x04; x05] 2 [0; 2] = Some t
           ∧ reverse_chunks_in_memory t 2 [0; 2] = Some r
           ∧ r = [x01; x02; x03; x04; x05] ++ replicate z x00
           ∧ take 5 r = [x01; x02; x03; x04; x05].
Proof.
  apply (padded_reversal_round_trip [x01; x02; x03; x04; x05] 2 [0; 2]).
  - discriminate.
  - lia.
Defined.

Lemma search_loop_empty_file (paq_compress : bytes → result bytes)
    (samples : list (list Z)) (st : state) :
  search_loop paq_compress [] samples st = st.
Proof.
  unfold search_loop. induction samples as [|ps samples IH]; [reflexivity|].
  cbn [foldl]. exact IH.
Qed.

Lemma restore_chunks_1 (data : bytes) :
  (λ i, slice data (i * Z.to_nat 1) ((i + 1) * Z.to_nat 1))
    <$> seq 0 (Z.to_nat (len data / 1))
  = chunks 1 data.
Proof.
  unfold chunks. rewrite Z.div_1_r, to_nat_len.
  replace (range_len (length data) 1) with (length data)
    by (unfold range_len; rewrite Nat.div_1_r; lia).
  rewrite <- list_fmap_compose. apply list_fmap_ext. intros _ i _.
  unfold compose. change (Z.to_nat 1) with 1%nat. f_equal; lia.
Qed.

(** The bytes of a container of Black_Hole_65, field after field. *)
Lemma container_65_layout (data : bytes) (ps : list Z) (osz : Z) :
  fits 8 osz → fits 4 (len ps) → Forall (fits 4) ps →
  container data ps osz
  = Ok (flat 8 [osz] ++ flat 4 [1] ++ flat 4 [len ps] ++ flat 4 ps ++ data).
Proof.
  intros Ho Hn Hps. unfold container.
  rewrite (pack_uint_fits 8 osz Ho). cbn [bind].
  rewrite (pack_uint_fits 4 1) by (rewrite fits_4; lia). cbn [bind].
  rewrite (pack_uint_fits 4 _ Hn). cbn [bind].
  rewrite pack_array_fits by exact Hps. cbn [bind].
  unfold flat. cbn [fmap list_fmap concat].
  now rewrite !app_nil_r, <- !app_assoc.
Qed.

Lemma restore_65_layout (data : bytes) (ps : list Z) (osz : Z) :
  fits 8 osz → fits 4 (len ps) → Forall (fits 4) ps →
  BH65Restore.restore
    (flat 8 [osz] ++ flat 4 [1] ++ flat 4 [len ps] ++ flat 4 ps ++ data)
  = Ok (take (Z.to_nat osz) data).
Proof.
  intros Ho Hn Hps.
  assert (Forall (fits 8) [osz]) as H8
    by (apply Forall_cons_2; [exact Ho | apply Forall_nil_2]).
  assert (Forall (fits 4) [1]) as H1
    by (apply Forall_cons_2; [rewrite fits_4; lia | apply Forall_nil_2]).
  assert (Forall (fits 4) [len ps]) as Hc
    by (apply Forall_cons_2; [exact Hn | apply Forall_nil_2]).
  pose proof (unpack_array_flat 8 _ H8) as E8. cbn [length] in E8.
  pose proof (unpack_array_flat 4 _ H1) as E1. cbn [length] in E1.
  pose proof (unpack_array_flat 4 _ Hc) as Ec. cbn [length] in Ec.
  unfold BH65Restore.restore.
  rewrite slice_prefix by now rewrite length_flat.
  rewrite E8. cbn [bind].
  rewrite slice_skip by now rewrite length_flat.
  rewrite slice_prefix by now rewrite length_flat.
  rewrite E1. cbn [bind].
  rewrite (app_assoc (flat 8 [osz])).
  rewrite slice_skip by (rewrite length_app, !length_flat; reflexivity).
  rewrite slice_prefix by now rewrite length_flat.
  rewrite Ec. cbn [bind]. rewrite !to_nat_len.
  rewrite (app_assoc _ (flat 4 [len ps])).
  rewrite slice_skip by (rewrite !length_app, !length_flat; reflexivity).
  rewrite slice_prefix by (rewrite length_flat; lia).
  rewrite (unpack_array_flat 4 ps Hps). cbn [bind].
  rewrite (app_assoc _ (flat 4 ps)).
  rewrite drop_app_length' by (rewrite !length_app, !length_flat; simpl; lia).
  unfold floordiv. rewrite decide_False by discriminate. cbn [bind].
  rewrite restore_chunks_1.
  rewrite foldl_reverse_at_singletons
    by (apply well_chunked_1_full, well_chunked_chunks; lia).
  now rewrite concat_chunks by lia.
Qed.

(** X19. What [find_best_chunk_strategy] writes for a non-empty file is
    turned back into the file by the decoding of
    [decompress_and_restore_paq], for every sample of positions that fits
    the header and a coder whose [decompress] undoes its [compress]. *)
Theorem restore_after_compress_with_paq
    (paq_compress paq_decompress : bytes → result bytes)
    (d : bytes) (ps : list Z) :
  (∀ x, ∃ y, paq_compress x = Ok y) →
  (∀ x y, paq_compress x = Ok y → paq_decompress y = Ok x) →
  d ≠ [] → fits 8 (len d) → fits 4 (len ps) → Forall (fits 4) ps →
  ∃ t z, reverse_chunks_in_memory d 1 ps = Some t
         ∧ compress_with_paq paq_compress t ps (len d) = Some z
         ∧ BH65Restore.decompress_and_restore paq_decompress z = Some d.
Proof.
  intros Htot Hinv Hd Ho Hn Hps.
  destruct (Htot (flat 8 [len d] ++ flat 4 [1] ++ flat 4 [len ps]
                  ++ flat 4 ps ++ d)) as [z Hz].
  exists d, z. split; [now apply reverse_chunks_in_memory_chunk_1|].
  unfold compress_with_paq, BH65Restore.decompress_and_restore.
  rewrite container_65_layout by assumption. cbn [bind]. rewrite Hz.
  split; [reflexivity|]. rewrite (Hinv _ _ Hz). cbn [bind].
  rewrite restore_65_layout by assumption. now rewrite take_len.
Qed.

(** X19 with the storing coder. *)
Lemma restore_after_compress_with_paq_witness :
  ∃ t z, reverse_chunks_in_memory [x01; x02; x03] 1 [0; 2] = Some t
         ∧ compress_with_paq store_coder t [0; 2] 3 = Some z
         ∧ BH65Restore.decompress_and_restore store_coder z
           = Some [x01; x02; x03].
Proof.
  apply (restore_after_compress_with_paq store_coder store_coder
           [x01; x02; x03] [0; 2]).
  - intros x. exists x. reflexivity.
  - intros x y H. injection H as <-. reflexivity.
  - discriminate.
  - unfold fits, len. simpl. lia.
  - rewrite fits_4. unfold len. simpl. lia.
  - repeat (apply Forall_cons_2; [rewrite fits_4; lia|]). apply Forall_nil_2.
Defined.

End PaddingExtras.

Section RestoreExtras.

Import BH65.

(** A decompressed buffer of Black_Hole_65 with an arbitrary chunk size
    field. *)
Lemma restore_65_general (data : bytes) (ps : list Z) (osz cs : Z) :
  fits 8 osz → fits 4 cs → fits 4 (len ps) → Forall (fits 4) ps →
  BH65Restore.restore
    (flat 8 [osz] ++ flat 4 [cs] ++ flat 4 [len ps] ++ flat 4 ps ++ data)
  = (total_chunks <- floordiv (len data) cs ;;
     Ok (take (Z.to_nat osz)
           (concat (foldl BH94.reverse_at
                      ((λ i, slice data (i * Z.to_nat cs) ((i + 1) * Z.to_nat cs))
                         <$> seq 0 (Z.to_nat total_chunks)) ps)))).
Proof.
  intros Ho Hcs Hn Hps.
  assert (Forall (fits 8) [osz]) as H8
    by (apply Forall_cons_2; [exact Ho | apply Forall_nil_2]).
  assert (Forall (fits 4) [cs]) as H1
    by (apply Forall_cons_2; [exact Hcs | apply Forall_nil_2]).
  assert (Forall (fits 4) [len ps]) as Hc
    by (apply Forall_cons_2; [exact Hn | apply Forall_nil_2]).
  pose proof (unpack_array_flat 8 _ H8) as E8. cbn [length] in E8.
  pose proof (unpack_array_flat 4 _ H1) as E1. cbn [length] in E1.
  pose proof (unpack_array_flat 4 _ Hc) as Ec. cbn [length] in Ec.
  unfold BH65Restore.restore.
  rewrite slice_prefix by now rewrite length_flat.
  rewrite E8. cbn [bind].
  rewrite slice_skip by now rewrite length_flat.
  rewrite slice_prefix by now rewrite length_flat.
  rewrite E1. cbn [bind].
  rewrite (app_assoc (flat 8 [osz])).
  rewrite slice_skip by (rewrite length_app, !length_flat; reflexivity).
  rewrite slice_prefix by now rewrite length_flat.
  rewrite Ec. cbn [bind]. rewrite !to_nat_len.
  rewrite (app_assoc _ (flat 4 [len ps])).
  rewrite slice_skip by (rewrite !length_app, !length_flat; reflexivity).
  rewrite slice_prefix by (rewrite length_flat; lia).
  rewrite (unpack_array_flat 4 ps Hps). cbn [bind].
  rewrite (app_assoc _ (flat 4 ps)).
  rewrite drop_app_length' by (rewrite !length_app, !length_flat; simpl; lia).
  reflexivity.
Qed.

Lemma full_slices (data : bytes) (k m : nat) :
  (m * k ≤ length data)%nat →
  Forall (λ x, length x = k)
    ((λ i, slice data (i * k) ((i + 1) * k)) <$> seq 0 m).
Proof.
  intros Hm. apply Forall_fmap, Forall_forall. intros i Hi.
  apply in_seq in Hi. cbn. rewrite length_slice. nia.
Qed.

(** X20. The decoding of [decompress_and_restore_paq] cuts the payload into
    [len(payload) // chunk_size] chunks, so the bytes after the last full
    chunk are dropped: the restored data has
    [min(original_size, (len(payload) // chunk_size) * chunk_size)] bytes.
    A chunk size field of 0 makes it divide by zero on any payload. *)
Theorem restore_drops_partial_chunk (data : bytes) (ps : list Z) (osz cs : Z) :
  fits 8 osz → fits 4 cs → fits 4 (len ps) → Forall (fits 4) ps →
  match BH65Restore.restore
          (flat 8 [osz] ++ flat 4 [cs] ++ flat 4 [len ps] ++ flat 4 ps ++ data)
  with
  | Ok r => 0 < cs ∧ len r = Z.min osz (len data / cs * cs)
  | Raise e => cs = 0 ∧ e = ZeroDivisionError
  end.
Proof.
  intros Ho Hcs Hn Hps. rewrite restore_65_general by assumption.
  unfold floordiv. destruct (decide (cs = 0)) as [->|H0]; [split; reflexivity|].
  cbn [bind]. rewrite fits_4 in Hcs. split; [lia|].
  assert (0 <= len data / cs) as Hq by (apply Z.div_pos; unfold len; lia).
  assert (len data / cs * cs <= len data) as Hle
    by (pose proof (Z.mul_div_le (len data) cs); lia).
  unfold len at 1. rewrite length_take.
  rewrite (length_concat_lengths _
             ((λ i, slice data (i * Z.to_nat cs) ((i + 1) * Z.to_nat cs))
                <$> seq 0 (Z.to_nat (len data / cs))))
    by apply lengths_foldl_reverse_at.
  rewrite (length_concat_full (Z.to_nat cs))
    by (apply full_slices; unfold len in *; nia).
  rewrite length_fmap, length_seq. unfold fits in Ho. lia.
Qed.

(** X20 on a five-byte payload with chunk size 2. *)
Lemma restore_drops_partial_chunk_witness :
  match BH65Restore.restore
          (flat 8 [5] ++ flat 4 [2] ++ flat 4 [len (@nil Z)] ++ flat 4 []
           ++ [x01; x02; x03; x04; x05])
  with
  | Ok r => 0 < 2 ∧ len r = Z.min 5 (len [x01; x02; x03; x04; x05] / 2 * 2)
  | Raise e => 2 = 0 ∧ e = ZeroDivisionError
  end.
Proof.
  apply (restore_drops_partial_chunk [x01; x02; x03; x04; x05] [] 5 2).
  - unfold fits. simpl. lia.
  - rewrite fits_4. lia.
  - rewrite fits_4. unfold len. simpl. lia.
  - apply Forall_nil_2.
Defined.

(** X21. On an empty file [reverse_chunks_in_memory] fails for every chunk
    size and position list (there is no last chunk to pad), and the loop of
    [find_best_chunk_strategy] compresses nothing: whatever is sampled, the
    best-so-far record and the file on disk stay as they were. *)
Theorem empty_file_is_never_compressed (paq_compress : bytes → result bytes)
    (c : Z) (ps : list Z) (samples : list (list Z)) (st : state) :
  reverse_chunks_in_memory [] c ps = None
  ∧ search_loop paq_compress [] samples st = st.
Proof.
  split; [apply reverse_chunks_in_memory_empty | apply search_loop_empty_file].
Qed.

End RestoreExtras.

(** * Properties of Black_Hole_89 *)

Section Extras89.

Import BH89.

Variable paq_compress : bytes → result bytes.
Variable paq_decompress : bytes → result bytes.
Variable float : Type.
Variable float_div : Z → Z → float.
Variable float_lt : float → float → bool.
Variable inf : float.

Lemma container_89_layout (data : bytes) (c : Z) (ps : list Z) (osz cv : Z) :
  fits 4 osz → fits 4 c → fits 4 cv → fits 1 (len ps) → Forall (fits 4) ps →
  container data c ps osz cv
  = Ok (flat 4 [osz; c; cv] ++ flat 1 [len ps] ++ flat 4 ps ++ data).
Proof.
  intros Ho Hc Hv Hn Hps. unfold container.
  rewrite !pack_uint_fits by assumption. cbn [bind].
  rewrite pack_array_fits by exact Hps. cbn [bind].
  unfold flat. cbn [fmap list_fmap concat].
  now rewrite !app_nil_r, <- !app_assoc.
Qed.

Lemma restore_89_layout (data : bytes) (c : Z) (ps : list Z) (osz cv : Z) :
  fits 4 osz → fits 4 c → fits 4 cv → fits 1 (len ps) → Forall (fits 4) ps →
  restore (flat 4 [osz; c; cv] ++ flat 1 [len ps] ++ flat 4 ps ++ data)
  = (r <- BH94.reverse_chunks data c ps ;;
     Ok (take (Z.to_nat osz) (BH94.apply_calculus r cv))).
Proof.
  intros Ho Hc Hv Hn Hps.
  assert (Forall (fits 4) [osz; c; cv]) as H3
    by (repeat first [apply Forall_nil_2 | apply Forall_cons_2; [assumption|]]).
  assert (Forall (fits 1) [len ps]) as H1
    by (apply Forall_cons_2; [exact Hn | apply Forall_nil_2]).
  pose proof (unpack_array_flat 4 _ H3) as E3. cbn [length] in E3.
  pose proof (unpack_array_flat 1 _ H1) as E1. cbn [length] in E1.
  unfold restore.
  rewrite slice_prefix by now rewrite length_flat.
  rewrite E3. cbn [bind].
  rewrite slice_skip by now rewrite length_flat.
  rewrite slice_prefix by now rewrite length_flat.
  rewrite E1. cbn [bind]. rewrite !to_nat_len.
  rewrite (app_assoc (flat 4 [osz; c; cv])).
  rewrite slice_skip by (rewrite length_app, !length_flat; reflexivity).
  rewrite slice_prefix by (rewrite length_flat; lia).
  rewrite (unpack_array_flat 4 ps Hps). cbn [bind].
  rewrite (app_assoc _ (flat 4 ps)).
  rewrite drop_app_length' by (rewrite !length_app, !length_flat; simpl; lia).
  reflexivity.
Qed.

Lemma restore_89_after_compress (d : bytes) (c v : Z) (ps : list Z) (t z : bytes) :
  (∀ x y, paq_compress x = Ok y → paq_decompress y = Ok x) →
  0 < c → fits 4 c → fits 4 (len d) → fits 4 v →
  fits 1 (len ps) → Forall (fits 4) ps →
  BH94.reverse_chunks (BH94.apply_calculus d v) c ps = Ok t →
  compress_data paq_compress t c ps (len d) v = Ok z →
  (dd <- paq_decompress z ;; restore dd) = Ok d.
Proof.
  intros Hinv Hc Hfc Hfd Hfv Hn Hps Ht Hz.
  unfold compress_data in Hz. rewrite container_89_layout in Hz by assumption.
  cbn [bind] in Hz. rewrite (Hinv _ _ Hz). cbn [bind].
  rewrite restore_89_layout by assumption.
  destruct (reverse_chunks_twice (BH94.apply_calculus d v) c ps Hc)
    as (t' & Ht' & Hback).
  rewrite Ht in Ht'. injection Ht' as <-. rewrite Hback. cbn [bind].
  now rewrite apply_calculus_involutive, take_len.
Qed.

(** X22. In Black_Hole_89 the position count takes one byte: with at most
    255 positions, what [compress_data] produces after [apply_calculus] and
    [reverse_chunks] is turned back into the payload by the body of
    [decompress_data]; with 256 positions or more [compress_data] raises
    [struct.error]. *)
Theorem round_trip_89 (d : bytes) (c v : Z) (ps : list Z) :
  (∀ x, ∃ y, paq_compress x = Ok y) →
  (∀ x y, paq_compress x = Ok y → paq_decompress y = Ok x) →
  0 < c → fits 4 c → fits 4 (len d) → fits 4 v → Forall (fits 4) ps →
  ∃ t, BH94.reverse_chunks (BH94.apply_calculus d v) c ps = Ok t
       ∧ if decide (len ps <= 255)
         then ∃ z, compress_data paq_compress t c ps (len d) v = Ok z
                   ∧ (dd <- paq_decompress z ;; restore dd) = Ok d
         else compress_data paq_compress t c ps (len d) v = Raise StructError.
Proof.
  intros Htot Hinv Hc Hfc Hfd Hfv Hps.
  destruct (reverse_chunks_twice (BH94.apply_calculus d v) c ps Hc)
    as (t & Ht & _).
  exists t. split; [exact Ht|]. case_decide as Hn.
  - assert (fits 1 (len ps)) as Hf1 by (unfold fits, len in *; simpl; lia).
    destruct (Htot (flat 4 [len d; c; v] ++ flat 1 [len ps] ++ flat 4 ps ++ t))
      as [z Hz].
    assert (compress_data paq_compress t c ps (len d) v = Ok z) as Hcomp.
    { unfold compress_data. rewrite container_89_layout by assumption.
      exact Hz. }
    exists z. split; [exact Hcomp|].
    eapply restore_89_after_compress; eassumption.
  - unfold compress_data, container.
    rewrite !pack_uint_fits by assumption. cbn [bind].
    rewrite pack_uint_overflow; [reflexivity|].
    unfold fits. simpl. lia.
Qed.

Hypothesis below_inf : ∀ a b, float_lt (float_div a b) inf = true.

Lemma valid_draw_89_fits (n : Z) (d : draw) :
  fits 4 n → valid_draw n d →
  0 < draw_chunk_size d ∧ fits 4 (draw_chunk_size d)
  ∧ fits 4 (draw_calculus_value d) ∧ fits 1 (len (draw_positions d))
  ∧ Forall (fits 4) (draw_positions d).
Proof.
  intros Hn (Hc & Hv & _ & _ & Hps & Hlen). rewrite !fits_4 in *.
  assert (n / draw_chunk_size d <= n) by (apply Z.div_le_upper_bound; nia).
  repeat split; try lia.
  all: try (unfold fits, len in *; simpl; lia).
  eapply Forall_impl; [|exact Hps]. cbn. intros p Hp. rewrite fits_4. lia.
Qed.

(** What holds of the pair the loop carries: when there is a best blob, it
    is restored to the input. *)
Lemma iteration_89 (input : bytes) (st : float * option bytes) (d : draw) :
  (∀ x, ∃ y, paq_compress x = Ok y) →
  (∀ x y, paq_compress x = Ok y → paq_decompress y = Ok x) →
  input ≠ [] → fits 4 (len input) → valid_draw (len input) d →
  (∀ b, snd st = Some b → (dd <- paq_decompress b ;; restore dd) = Ok input) →
  ∃ st', iteration paq_compress float float_div float_lt input st d = Ok st'
         ∧ (∀ b, snd st' = Some b →
                 (dd <- paq_decompress b ;; restore dd) = Ok input)
         ∧ (fst st = inf ∨ snd st ≠ None → snd st' ≠ None)
         ∧ (snd st ≠ None → snd st' ≠ None).
Proof.
  intros Htot Hinv Hne Hfn Hd Hst.
  destruct (valid_draw_89_fits _ _ Hfn Hd) as (Hc & Hfc & Hfv & Hf1 & Hps).
  unfold iteration, floordiv. rewrite decide_False by lia. cbn [bind].
  assert (0 <= len input / draw_chunk_size d)
    by (apply Z.div_pos; unfold len; lia).
  rewrite decide_False by lia.
  destruct (reverse_chunks_twice
              (BH94.apply_calculus input (draw_calculus_value d))
              (draw_chunk_size d) (draw_positions d) Hc) as (t & Ht & _).
  rewrite Ht. cbn [bind].
  destruct (Htot (flat 4 [len input; draw_chunk_size d; draw_calculus_value d]
                  ++ flat 1 [len (draw_positions d)]
                  ++ flat 4 (draw_positions d) ++ t)) as [z Hz].
  assert (compress_data paq_compress t (draw_chunk_size d) (draw_positions d)
            (len input) (draw_calculus_value d) = Ok z) as Hcomp.
  { unfold compress_data. rewrite container_89_layout by assumption. exact Hz. }
  rewrite Hcomp. cbn [bind]. unfold truediv.
  rewrite decide_False by (destruct input; [done | unfold len; simpl; lia]).
  cbn [bind].
  destruct (float_lt (float_div (len z) (len input)) (fst st)) eqn:Hlt.
  - eexists. split; [reflexivity|]. cbn [snd]. split; [|split; discriminate].
    intros b [= <-].
    eapply restore_89_after_compress; eassumption.
  - exists st. split; [reflexivity|]. split; [exact Hst|]. split; [|tauto].
    intros [Hinf|Hsome]; [|exact Hsome].
    rewrite Hinf, below_inf in Hlt. discriminate Hlt.
Qed.

Lemma search_loop_89 (input : bytes) (draws : list draw)
    (st : float * option bytes) :
  (∀ x, ∃ y, paq_compress x = Ok y) →
  (∀ x y, paq_compress x = Ok y → paq_decompress y = Ok x) →
  input ≠ [] → fits 4 (len input) → Forall (valid_draw (len input)) draws →
  (∀ b, snd st = Some b → (dd <- paq_decompress b ;; restore dd) = Ok input) →
  ∃ st', search_loop paq_compress float float_div float_lt input draws st
         = Ok st'
         ∧ (∀ b, snd st' = Some b →
                 (dd <- paq_decompress b ;; restore dd) = Ok input)
         ∧ (draws ≠ [] → fst st = inf ∨ snd st ≠ None → snd st' ≠ None)
         ∧ (snd st ≠ None → snd st' ≠ None).
Proof.
  intros Htot Hinv Hne Hfn Hds. revert st.
  induction Hds as [|d draws Hd _ IH]; intros st Hst.
  - exists st. split; [reflexivity|]. split; [exact Hst|]. split; [done|tauto].
  - destruct (iteration_89 input st d Htot Hinv Hne Hfn Hd Hst)
      as (s & Hs & Hrest & Hfirst & Hkeep).
    destruct (IH s Hrest) as (st' & Hloop & Hrest' & _ & Hkeep').
    exists st'. cbn [search_loop]. rewrite Hs. cbn [bind].
    split; [exact Hloop|]. split; [exact Hrest'|]. split.
    + intros _ H0. apply Hkeep', Hfirst, H0.
    + intros H0. apply Hkeep', Hkeep, H0.
Qed.

(** X23. [find_best_iteration] of Black_Hole_89 has no baseline: with a
    budget of 0 it returns [None] (and [process_large_file] then writes no
    file). With a budget of at least 1 on a non-empty input it returns a
    blob, and that blob is restored to the input by the body of
    [decompress_data]. *)
Theorem search_89_result (rng : nat → draw) (input : bytes) (max_iterations : Z) :
  (∀ x, ∃ y, paq_compress x = Ok y) →
  (∀ x y, paq_compress x = Ok y → paq_decompress y = Ok x) →
  input ≠ [] → fits 4 (len input) → (∀ i, valid_draw (len input) (rng i)) →
  if decide (max_iterations <= 0)
  then find_best_iteration paq_compress float float_div float_lt inf rng input
         max_iterations = Ok (None, inf)
  else ∃ blob ratio,
         find_best_iteration paq_compress float float_div float_lt inf rng
           input max_iterations = Ok (Some blob, ratio)
         ∧ (dd <- paq_decompress blob ;; restore dd) = Ok input.
Proof.
  intros Htot Hinv Hne Hfn Hrng. unfold find_best_iteration.
  case_decide as Hn.
  - replace (Z.to_nat max_iterations) with 0%nat by lia. reflexivity.
  - destruct (search_loop_89 input (rng <$> seq 0 (Z.to_nat max_iterations))
                (inf, None) Htot Hinv Hne Hfn) as (st & Hloop & Hrest & Hsome & _).
    { apply Forall_fmap, Forall_forall. intros i _. apply Hrng. }
    { intros b Hb. discriminate Hb. }
    rewrite Hloop. cbn [bind].
    destruct st as [ratio [blob|]].
    + exists blob, ratio. split; [reflexivity|]. now apply Hrest.
    + exfalso. apply Hsome; [| left; reflexivity | reflexivity].
      destruct (Z.to_nat max_iterations) eqn:E; [lia | discriminate].
Qed.

End Extras89.

(** X22 with the storing coder and two positions. *)
Lemma round_trip_89_witness :
  ∃ t, BH94.reverse_chunks (BH94.apply_calculus [x01; x02; x03] 300) 2 [1; 0]
       = Ok t
       ∧ if decide (len [1; 0] <= 255)
         then ∃ z, BH89.compress_data store_coder t 2 [1; 0]
                     (len [x01; x02; x03]) 300 = Ok z
                   ∧ (dd <- store_coder z ;; BH89.restore dd)
                     = Ok [x01; x02; x03]
         else BH89.compress_data store_coder t 2 [1; 0]
                (len [x01; x02; x03]) 300 = Raise StructError.
Proof.
  apply (round_trip_89 store_coder store_coder [x01; x02; x03] 2 300 [1; 0]).
  - intros x. exists x. reflexivity.
  - intros x y H. injection H as <-. reflexivity.
  - lia.
  - rewrite fits_4. lia.
  - rewrite fits_4. unfold len. simpl. lia.
  - rewrite fits_4. lia.
  - repeat (apply Forall_cons_2; [rewrite fits_4; lia|]). apply Forall_nil_2.
Defined.

(** X23 with the storing coder, exact quotients for the floats and a budget
    of two turns. *)
Lemma search_89_result_witness :
  ∃ blob ratio,
    BH89.find_best_iteration store_coder (option Q)
      (λ a b, Some (Qmake a (Z.to_pos b)))
      (λ x y, match x, y with
              | Some p, Some q => if Qlt_le_dec p q then true else false
              | Some _, None => true
              | None, _ => false
              end)
      None (λ _, BH89.Draw 128 1 []) [x01; x02; x03] 2
    = Ok (Some blob, ratio)
    ∧ (dd <- store_coder blob ;; BH89.restore dd) = Ok [x01; x02; x03].
Proof.
  apply (search_89_result store_coder store_coder (option Q)
           (λ a b, Some (Qmake a (Z.to_pos b)))
           (λ x y, match x, y with
                   | Some p, Some q => if Qlt_le_dec p q then true else false
                   | Some _, None => true
                   | None, _ => false
                   end)
           None (λ _ _, eq_refl) (λ _, BH89.Draw 128 1 []) [x01; x02; x03] 2).
  - intros x. exists x. reflexivity.
  - intros x y H. injection H as <-. reflexivity.
  - discriminate.
  - rewrite fits_4. unfold len. simpl. lia.
  - intros _. repeat split.
    + vm_compute. discriminate.
    + vm_compute. discriminate.
    + vm_compute. discriminate.
    + vm_compute. discriminate.
    + constructor.
    + constructor.
    + apply Forall_nil_2.
    + vm_compute. discriminate.
Defined.

(** * The baseline of the search (C4) *)

Section BaselineClaim.

Variable paq_compress : bytes → result bytes.
Variable float : Type.
Variable float_div : Z → Z → float.
Variable float_lt : float → float → bool.
Variable inf : float.

(** C4, amended. In [find_best_iteration] of Black_Hole_94, for every
    non-empty payload of fewer than [2**32] bytes, every chunk size from 1
    to [2**32 - 1], every budget (zero included), every draws [random] can
    return and a coder that does not fail, the search returns a result: the
    baseline (no position, calculus value 0, the untransformed payload put
    in a container and passed to the coder) is computed before the loop; it
    is what a zero budget returns and what is returned when no sampled
    candidate is strictly smaller. [find_best_iteration] of Black_Hole_89
    has no baseline: it starts from [None], and a budget of zero returns
    [(None, inf)] for every payload and coder. *)
Theorem baseline_only_in_94 :
  (∀ (rng : nat → BH94.draw) (input : bytes) (max_iterations c : Z),
     (∀ x, ∃ y, paq_compress x = Ok y) →
     input ≠ [] → fits 4 (len input) → 0 < c → fits 4 c →
     (∀ i, BH94.valid_draw (len input) c (rng i)) →
     ∃ blob base q,
       BH94.container input c [] (len input) 0 = Ok blob
       ∧ paq_compress blob = Ok base
       ∧ BH94.baseline paq_compress input c = Ok (BH94.Best (len base) base q)
       ∧ ∃ data ratio,
           BH94.find_best_iteration paq_compress rng input max_iterations c
             = Ok (data, ratio)
           ∧ (max_iterations <= 0 → (data, ratio) = (base, q))
           ∧ ((∀ i z, (1 ≤ i ≤ Z.to_nat max_iterations)%nat →
                      BH94.candidate paq_compress input c (rng i) = Ok z →
                      len base <= len z) →
              (data, ratio) = (base, q)))
  ∧ (∀ (rng : nat → BH89.draw) (input : bytes) (max_iterations : Z),
       max_iterations <= 0 →
       BH89.find_best_iteration paq_compress float float_div float_lt inf
         rng input max_iterations = Ok (None, inf)).
Proof.
  split.
  - intros rng input max_iterations c Htot Hne Hfn Hc Hfc Hrng.
    now apply search_result_is_defined.
  - intros rng input max_iterations Hn. unfold BH89.find_best_iteration.
    replace (Z.to_nat max_iterations) with 0%nat by lia. reflexivity.
Qed.

End BaselineClaim.

(** C4, counterexample. A result is not always there: with a budget of zero
    [find_best_iteration] of Black_Hole_89 returns [None] for a one-byte
    payload; [find_best_iteration] of Black_Hole_94 raises when the coder
    fails on the baseline, and when the chunk size is [2**32], which its
    header field cannot hold. *)
Lemma search_result_can_be_absent :
  BH89.find_best_iteration store_coder (option Q)
    (λ a b, Some (Qmake a (Z.to_pos b)))
    (λ x y, match x, y with
            | Some p, Some q => if Qlt_le_dec p q then true else false
            | Some _, None => true
            | None, _ => false
            end)
    None (λ _, BH89.Draw 128 1 []) [x01] 0 = Ok (None, None)
  ∧ BH94.find_best_iteration (λ _, Raise PaqError) (λ _, BH94.Draw 1 [])
      [x01] 0 4 = Raise PaqError
  ∧ BH94.find_best_iteration store_coder (λ _, BH94.Draw 1 [])
      [x01] 0 (2 ^ 32) = Raise StructError.
Proof. repeat split; vm_compute; reflexivity. Qed.

(** C4, amended, with the storing coder: a budget of two turns for
    Black_Hole_94, a budget of zero for Black_Hole_89. *)
Lemma baseline_only_in_94_witness :
  (∃ data ratio,
     BH94.find_best_iteration store_coder (λ _, BH94.Draw 1 [0])
       [x01; x02; x03] 2 2 = Ok (data, ratio))
  ∧ BH89.find_best_iteration store_coder (option Q)
      (λ a b, Some (Qmake a (Z.to_pos b)))
      (λ x y, match x, y with
              | Some p, Some q => if Qlt_le_dec p q then true else false
              | Some _, None => true
              | None, _ => false
              end)
      None (λ _, BH89.Draw 128 1 []) [x01; x02; x03] 0 = Ok (None, None).
Proof.
  destruct (baseline_only_in_94 store_coder (option Q)
              (λ a b, Some (Qmake a (Z.to_pos b)))
              (λ x y, match x, y with
                      | Some p, Some q => if Qlt_le_dec p q then true else false
                      | Some _, None => true
                      | None, _ => false
                      end)
              None) as [H94 H89].
  split.
  - destruct (H94 (λ _, BH94.Draw 1 [0]) [x01; x02; x03] 2 2)
      as (_ & _ & _ & _ & _ & _ & data & ratio & H & _).
    + intros x. exists x. reflexivity.
    + discriminate.
    + rewrite fits_4. unfold len. simpl. lia.
    + lia.
    + rewrite fits_4. lia.
    + intros _. repeat split.
      * vm_compute. discriminate.
      * vm_compute. discriminate.
      * repeat constructor.
      * apply (bool_decide_unpack _). vm_compute. exact I.
      * apply Forall_cons_2; [|apply Forall_nil_2]. vm_compute.
        split; [discriminate | reflexivity].
      * vm_compute. discriminate.
    + exists data, ratio. exact H.
  - apply H89. lia.
Defined.
